(** * Room repository over localStorage (services/storageService.ts)

    A shallow embedding of the persistence layer of the chat-room demo:
    the types of [types.ts], the localStorage document, the change
    notifier and the repository operations [getRooms], [saveRoom],
    [deleteRoom], [createRoom], [addMessage], [addMemo] and [deleteMemo].

    JavaScript effects are threaded through a state-and-exception monad
    [JS] over a [World] that holds localStorage, the events dispatched on
    [window] and the console. *)

From Stdlib Require Import ZArith Ascii.
From stdpp Require Import base strings list gmap pretty sorting.

(** ** types.ts

    A [number] field holds a [Date.now()] reading, an integer number of
    milliseconds. *)

Inductive UserRole := ADMIN | PARTICIPANT.

(** [type: 'text' | 'system'] *)
Inductive MessageType := type_text | type_system.

Module Message.
Record t := mk {
  id : string;
  senderName : string;
  role : UserRole;
  text : string;
  timestamp : Z;
  type : MessageType
}.
End Message.

Module Memo.
Record t := mk {
  id : string;
  title : string;
  content : string;
  createdAt : Z
}.
End Memo.

Module ChatRoom.
Record t := mk {
  id : string;
  title : string;
  password : option string;      (* password?: string *)
  messages : list Message.t;
  memos : list Memo.t;
  createdAt : Z;
  createdBy : string
}.

(** [room.messages = ms] and [room.memos = ms] on a room object. *)
Definition set_messages (ms : list Message.t) (r : t) : t :=
  mk (id r) (title r) (password r) ms (memos r) (createdAt r) (createdBy r).
Definition set_memos (ms : list Memo.t) (r : t) : t :=
  mk (id r) (title r) (password r) (messages r) ms (createdAt r) (createdBy r).
End ChatRoom.

Module UserSession.
Record t := mk {
  username : string;
  role : UserRole
}.
End UserSession.

(** ** The state of the components of index.tsx

    One field for each [useState] cell that the modelled handlers read or
    set. *)

(** [App], without its [rooms] and [searchTerm] cells: [rooms] is set by
    [loadRooms] and by [handleDeleteRoom], which are given it apart. *)
Module App.
Record state := mk {
  currentRoom : option ChatRoom.t;
  currentUser : option UserSession.t;
  showCreateModal : bool;
  joinModalRoom : option ChatRoom.t;
  showAdminLogin : bool;
  isAdminMode : bool
}.
End App.

Module JoinRoomModal.
Record state := mk {
  nickname : string;
  password : string;
  error : string
}.
End JoinRoomModal.

Module AdminLoginModal.
Record state := mk {
  password : string;
  error : string
}.
End AdminLoginModal.

Module CreateRoomModal.
Record state := mk {
  title : string;
  password : string;
  hasPassword : bool
}.
End CreateRoomModal.

Module ChatInterface.
Record state := mk {
  inputText : string;
  showMemoInput : bool;
  newMemoTitle : string;
  newMemoContent : string
}.
End ChatInterface.

(** ** The JavaScript host *)

(** What a localStorage entry holds.  [JSON.stringify] and [JSON.parse]
    are host functions: the text that [JSON.stringify rooms] produces is
    kept as the document it denotes, and [JSON.parse] gives that document
    back; any other text is a [Raw] string, on which [JSON.parse] is the
    host's (see [JSON_parse] below). *)
Inductive Item :=
  | Raw (s : string)
  | Stringified (rooms : list ChatRoom.t).

Inductive exn :=
  | SyntaxError (msg : string)
  | DOMException (name : string).

Record World := mkWorld {
  localStorage : gmap string Item;
  dispatched : list string;        (* names of the events dispatched on window *)
  console : list string            (* console.error lines *)
}.

Inductive Completion (A : Type) :=
  | Normal (a : A)
  | Throw (e : exn).
Arguments Normal {A} a.
Arguments Throw {A} e.

Definition JS (A : Type) : Type := World → Completion A * World.

#[global] Instance JS_ret : MRet JS := λ A a w, (Normal a, w).
#[global] Instance JS_bind : MBind JS := λ A B f m w,
  match m w with
  | (Normal a, w') => f a w'
  | (Throw e, w') => (Throw e, w')
  end.

(** [try { body } catch (error) { handler }] *)
Definition try_catch {A} (body : JS A) (handler : exn → JS A) : JS A := λ w,
  match body w with
  | (Normal a, w') => (Normal a, w')
  | (Throw e, w') => handler e w'
  end.

Definition lift {A} (c : Completion A) : JS A := λ w, (c, w).

Definition localStorage_getItem (key : string) : JS (option Item) := λ w,
  (Normal (localStorage w !! key), w).

(** Storage is taken to be within quota: [setItem] does not throw. *)
Definition localStorage_setItem (key : string) (v : Item) : JS unit := λ w,
  (Normal tt, mkWorld (<[key := v]> (localStorage w)) (dispatched w) (console w)).

Definition window_dispatchEvent (name : string) : JS unit := λ w,
  (Normal tt, mkWorld (localStorage w) (dispatched w ++ [name]) (console w)).

Definition console_error (line : string) : JS unit := λ w,
  (Normal tt, mkWorld (localStorage w) (dispatched w) (console w ++ [line])).

(** Truthiness of a stored string: only the empty string is falsy, and
    the text of an array is never empty. *)
Definition truthy (stored : Item) : bool :=
  match stored with
  | Raw s => negb (String.eqb s "")
  | Stringified _ => true
  end.

Definition JSON_stringify (rooms : list ChatRoom.t) : Item := Stringified rooms.

(** [String(x)] on a string is that string (ids are typed [string]). *)
Definition JSString (x : string) : string := x.

(** [Array.prototype.findIndex]: the first index whose element satisfies
    the predicate, [-1] when there is none. *)
Definition findIndex {A} (P : A → Prop) `{∀ x, Decision (P x)} (l : list A) : Z :=
  match list_find P l with
  | Some (i, _) => Z.of_nat i
  | None => (-1)%Z
  end.

(** [Array.prototype.find]: the first element that satisfies the
    predicate, [undefined] when there is none. *)
Definition find {A} (P : A → Prop) `{∀ x, Decision (P x)} (l : list A) : option A :=
  snd <$> list_find P l.

(** [Array.prototype.sort] with a comparator: the sort is stable, so with
    a consistent comparator its result is the one of inserting the
    elements from the last to the first, each before the first element
    that the comparator does not put before it. *)
Fixpoint sort_insert {A} (compare : A → A → Z) (x : A) (l : list A) : list A :=
  match l with
  | [] => [x]
  | y :: l' =>
      if bool_decide (compare x y ≤ 0)%Z then x :: y :: l'
      else y :: sort_insert compare x l'
  end.

Definition Array_sort {A} (compare : A → A → Z) (l : list A) : list A :=
  foldr (sort_insert compare) [] l.

(** [Array.prototype.join] on strings. *)
Fixpoint Array_join (separator : string) (l : list string) : string :=
  match l with
  | [] => ""
  | [x] => x
  | x :: l' => x +:+ separator +:+ Array_join separator l'
  end.

(** Truthiness of a string, and of an optional string. *)
Definition nonempty (s : string) : bool := negb (String.eqb s "").
Definition truthy_opt (s : option string) : bool :=
  match s with
  | Some s => nonempty s
  | None => false
  end.

(** [s.substring(start, end)] for [start <= end]. *)
Definition JS_substring (start end_ : nat) (s : string) : string :=
  String.substring start (end_ - start) s.

(** What one call of [createRoom] reads from the clock and the random
    sources, in the order of the reads. *)
Record Ambient := mkAmbient {
  getFullYear : Z;
  getMonth : Z;
  getDate : Z;
  (** [crypto.randomUUID()], or [None] when [crypto] or [randomUUID] is
      undefined *)
  crypto_randomUUID : option string;
  (** [Date.now()] and [Math.random().toString(36)] of the fallback id *)
  Date_now_id : Z;
  Math_random_id : string;
  (** [Math.random().toString(36)] of the message id *)
  Math_random_msg : string;
  (** [Date.now()] of the message timestamp and of [createdAt] *)
  Date_now_msg : Z;
  Date_now_created : Z
}.

(** ** Typing status

    [setTypingStatus] and the [typing] field of a room are missing from
    the storage service and from [ChatRoom] as the sources have them; only
    the calls and the reads in the chat component are there. *)
Module Typing.

(** Modelled from the spec: the [typing: map<username, bool>] field of a
    room, which the [ChatRoom] interface of the sources does not have. *)
Record Room := mkRoom {
  room : ChatRoom.t;
  typing : gmap string bool
}.

Section Sanitize.
(** The specification does not list the characters that are unsafe for
    the key namespace. *)
Variable unsafe : ascii → bool.

(** Modelled from the spec: the sanitized key of [setTypingStatus], the
    username with the unsafe characters stripped; the function is missing
    from the storage service. *)
Fixpoint sanitize (username : string) : string :=
  match username with
  | EmptyString => EmptyString
  | String c rest =>
      if unsafe c then sanitize rest else String c (sanitize rest)
  end.

(** Modelled from the spec: [setTypingStatus], missing from the storage
    service, as what it does to the persisted collection: locate the room
    by id and upsert the flag under the sanitized key in its typing map;
    nothing happens when no room has the id. *)
Definition setTypingStatus (roomId username : string) (isTyping : bool)
    (rooms : list Room) : list Room :=
  match list_find (λ r, ChatRoom.id (room r) = roomId) rooms with
  | Some (i, r) =>
      <[i := mkRoom (room r) (<[sanitize username := isTyping]> (typing r))]>
        rooms
  | None => rooms
  end.
End Sanitize.

(** The character class of the chat component's regular expression
    [/[.#$[\]]/g]. *)
Definition key_unsafe (c : ascii) : bool :=
  bool_decide (c ∈ [".";"#";"$";"[";"]"]%char).

(** The key under which the chat component looks for its own user in
    [room.typing]: [session.username.replace(/[.#$[\]]/g, '_')]. *)
Fixpoint own_key (username : string) : string :=
  match username with
  | EmptyString => EmptyString
  | String c rest =>
      String (if key_unsafe c then "_"%char else c) (own_key rest)
  end.

End Typing.

(** ** services/storageService.ts: the storage key *)

Definition ROOMS_KEY : string := "ai_automation_rooms".

(** ** Sample host and documents, for the worked examples *)

(** A host whose [JSON.parse] accepts the text of the empty array and
    rejects every other foreign text. *)
Definition sample_JSON_parse (s : string) : Completion (list ChatRoom.t) :=
  if String.eqb s "[]" then Normal []
  else Throw (SyntaxError "Unexpected token").

Definition world_with (stored : option Item) : World :=
  mkWorld (match stored with Some v => {[ROOMS_KEY := v]} | None => ∅ end) [] [].

Definition hello : Message.t :=
  Message.mk "m1" "Ana" PARTICIPANT "hello" 1700000000000 type_text.
Definition hi : Message.t :=
  Message.mk "m2" "Ana" PARTICIPANT "hi" 1700000001000 type_text.
Definition plan_a : Memo.t := Memo.mk "p1" "Plan A" "Details" 1700000002000.
Definition plan_b : Memo.t := Memo.mk "p2" "Plan B" "More" 1700000003000.

Definition standup : ChatRoom.t :=
  ChatRoom.mk "r1" "Standup" None [hello] [plan_a; plan_b] 1700000000000 "AI Bot".
Definition secret : ChatRoom.t :=
  ChatRoom.mk "r2" "Secret" (Some "xyz") [] [] 1700000000500 "AI Bot".

Definition two_rooms : World :=
  world_with (Some (Stringified [standup; secret])).

(** 2 November 2026, without [crypto.randomUUID]. *)
Definition no_crypto : Ambient :=
  mkAmbient 2026 10 2 None 1793660000000 "0.4fzyo82mvyr" "0.k3x9q1"
    1793660000000 1793660000001.

(** The same millisecond; another random number with the same first seven
    digits, [4fzyo82]. *)
Definition no_crypto_again : Ambient :=
  mkAmbient 2026 10 2 None 1793660000000 "0.4fzyo82aaaa" "0.7cd01p"
    1793660000000 1793660000001.

(** The next millisecond, with the random number of [no_crypto]. *)
Definition no_crypto_later : Ambient :=
  mkAmbient 2026 10 2 None 1793660000001 "0.4fzyo82mvyr" "0.9ab3f2"
    1793660000001 1793660000001.

(** With [crypto.randomUUID]. *)
Definition with_crypto (uuid : string) : Ambient :=
  mkAmbient 2026 10 2 (Some uuid) 0 "" "0.k3x9q1" 1793660000000 1793660000001.

Definition sample_typing : list Typing.Room :=
  [Typing.mkRoom standup {["Bo" := true]}; Typing.mkRoom secret ∅].

(** A host whose [trim] knows the ASCII white space, and whose
    [toLocaleString] prints the milliseconds. *)
Fixpoint sample_trim_start (s : string) : string :=
  match s with
  | String c rest => if Ascii.is_space c then sample_trim_start rest else s
  | EmptyString => EmptyString
  end.

Definition sample_trim (s : string) : string :=
  String.rev (sample_trim_start (String.rev (sample_trim_start s))).

Definition sample_toLocaleString (t : Z) : string := pretty t.

Definition ana : UserSession.t := UserSession.mk "Ana" PARTICIPANT.

Definition browsing : App.state := App.mk None None false None false false.

Definition typing_hi : ChatInterface.state := ChatInterface.mk " hi " false "" "".

Definition unreadable : World := world_with (Some (Raw "{oops")).

(** A store whose only room has the id that [no_crypto] generates. *)
Definition earlier_room : ChatRoom.t :=
  ChatRoom.mk "room_1793660000000_4fzyo82" "Earlier" None [hello] [plan_a]
    1793660000000 "AI Bot".
Definition with_taken_id : World :=
  world_with (Some (Stringified [earlier_room])).

Definition retro : ChatRoom.t :=
  ChatRoom.mk "r3" "Retro" None [] [] 1700000000900 "AI Bot".

(** ** services/storageService.ts: the operations *)

Section StorageService.

(** [JSON.parse] on a text that this service did not write: the rooms it
    denotes, or a thrown [SyntaxError].  The result is typed as the
    source types it, [ChatRoom[]]; a text that denotes another JSON value
    is outside the typed model. *)
Variable JSON_parse : string → Completion (list ChatRoom.t).

Definition JSON_parse_item (stored : Item) : JS (list ChatRoom.t) :=
  match stored with
  | Stringified rooms => mret rooms
  | Raw s => lift (JSON_parse s)
  end.

Definition getRooms : JS (list ChatRoom.t) :=
  try_catch
    (stored ← localStorage_getItem ROOMS_KEY;
     match stored with
     | Some stored =>
         if truthy stored then JSON_parse_item stored else mret []
     | None => mret []                       (* null is falsy *)
     end)
    (λ error,
       console_error "Failed to parse rooms from localStorage";;
       mret []).

Definition notifyChanges : JS unit :=
  window_dispatchEvent "storage";;
  window_dispatchEvent "storage-local".

(** The array of [saveRoom] after its [if]/[else]. *)
Definition replace_or_push (room : ChatRoom.t) (rooms : list ChatRoom.t)
    : list ChatRoom.t :=
  let existingIndex :=
    findIndex (λ r, ChatRoom.id r = ChatRoom.id room) rooms in
  if bool_decide (0 ≤ existingIndex)%Z
  then <[Z.to_nat existingIndex := room]> rooms
  else rooms ++ [room].

Definition saveRoom (room : ChatRoom.t) : JS unit :=
  rooms ← getRooms;
  let rooms := replace_or_push room rooms in
  localStorage_setItem ROOMS_KEY (JSON_stringify rooms);;
  notifyChanges.

Definition deleteRoom (roomId : string) : JS unit :=
  rooms ← getRooms;
  let updatedRooms :=
    filter (λ r, JSString (ChatRoom.id r) ≠ JSString roomId) rooms in
  localStorage_setItem ROOMS_KEY (JSON_stringify updatedRooms);;
  notifyChanges.

(** [deleteRoom] as index.tsx and the earlier storage service have it,
    with [r.id !== roomId]. *)
Definition deleteRoom_strict (roomId : string) : JS unit :=
  rooms ← getRooms;
  let updatedRooms := filter (λ r, ChatRoom.id r ≠ roomId) rooms in
  localStorage_setItem ROOMS_KEY (JSON_stringify updatedRooms);;
  notifyChanges.

Definition dateText (now : Ambient) : string :=
  pretty (getFullYear now) +:+ "년 " +:+
  pretty (getMonth now + 1)%Z +:+ "월 " +:+
  pretty (getDate now) +:+ "일".

Definition uniqueId (now : Ambient) : string :=
  match crypto_randomUUID now with
  | Some uuid => uuid
  | None =>
      "room_" +:+ pretty (Date_now_id now) +:+ "_" +:+
      JS_substring 2 9 (Math_random_id now)
  end.

(** The object literal [newRoom] of [createRoom]. *)
Definition newRoom (title : string) (password : option string)
    (now : Ambient) : ChatRoom.t :=
  ChatRoom.mk (uniqueId now) title password
    [ Message.mk (Math_random_msg now) "System" ADMIN (dateText now)
        (Date_now_msg now) type_system ]
    []
    (Date_now_created now)
    "AI Bot".

Definition createRoom (title : string) (password : option string)
    (now : Ambient) : JS ChatRoom.t :=
  let newRoom := newRoom title password now in
  saveRoom newRoom;;
  mret newRoom.

(** [createRoom] as index.tsx has it: the room id and the message id are
    both [generateId()], that is [Math.random().toString(36).substr(2, 9)];
    the earlier storage service has the same room id and keeps
    [Math.random().toString(36)] for the message id. *)
Definition generateId (random36 : string) : string :=
  String.substring 2 9 random36.

Definition newRoom_index (title : string) (password : option string)
    (now : Ambient) : ChatRoom.t :=
  ChatRoom.mk (generateId (Math_random_id now)) title password
    [ Message.mk (generateId (Math_random_msg now)) "System" ADMIN
        (dateText now) (Date_now_msg now) type_system ]
    []
    (Date_now_created now)
    "AI Bot".

Definition createRoom_index (title : string) (password : option string)
    (now : Ambient) : JS ChatRoom.t :=
  let newRoom := newRoom_index title password now in
  saveRoom newRoom;;
  mret newRoom.

(** In the three operations below [room] is an element of the array that
    this call of [getRooms] parsed; it is changed in place and handed to
    [saveRoom], which parses the stored text afresh. *)
Definition addMessage (roomId : string) (message : Message.t) : JS unit :=
  rooms ← getRooms;
  match find (λ r, ChatRoom.id r = roomId) rooms with
  | Some room =>
      let room :=
        ChatRoom.set_messages (ChatRoom.messages room ++ [message]) room in
      saveRoom room
  | None => mret tt
  end.

Definition addMemo (roomId : string) (memo : Memo.t) : JS unit :=
  rooms ← getRooms;
  match find (λ r, ChatRoom.id r = roomId) rooms with
  | Some room =>
      let room := ChatRoom.set_memos (ChatRoom.memos room ++ [memo]) room in
      saveRoom room
  | None => mret tt
  end.

Definition deleteMemo (roomId : string) (memoId : string) : JS unit :=
  rooms ← getRooms;
  match find (λ r, ChatRoom.id r = roomId) rooms with
  | Some room =>
      let room :=
        ChatRoom.set_memos
          (filter (λ m, Memo.id m ≠ memoId) (ChatRoom.memos room)) room in
      saveRoom room
  | None => mret tt
  end.

(** ** Observing a run *)

(** The world a computation leaves, and the value it completes with. *)
Definition exec {A} (m : JS A) (w : World) : World := (m w).2.
Definition outcome {A} (m : JS A) (w : World) : Completion A := (m w).1.

(** [load w]: what a call of [getRooms] returns in world [w]. *)
Definition load (w : World) : list ChatRoom.t :=
  match outcome getRooms w with
  | Normal rooms => rooms
  | Throw _ => []
  end.

(** The world a call of [getRooms] leaves: only the console can differ. *)
Definition after_getRooms (w : World) : World := exec getRooms w.

(** The persisted document: the text stored under [ROOMS_KEY]. *)
Definition document (w : World) : option Item := localStorage w !! ROOMS_KEY.

(** The repository operations, as calls. *)
Inductive Op :=
  | CreateRoom (title : string) (password : option string) (now : Ambient)
  | SaveRoom (room : ChatRoom.t)
  | DeleteRoom (roomId : string)
  | AddMessage (roomId : string) (message : Message.t)
  | AddMemo (roomId : string) (memo : Memo.t)
  | DeleteMemo (roomId memoId : string).

Definition call (op : Op) : JS unit :=
  match op with
  | CreateRoom title password now => createRoom title password now;; mret tt
  | SaveRoom room => saveRoom room
  | DeleteRoom roomId => deleteRoom roomId
  | AddMessage roomId message => addMessage roomId message
  | AddMemo roomId memo => addMemo roomId memo
  | DeleteMemo roomId memoId => deleteMemo roomId memoId
  end.

(** A sequence of [createRoom] calls, and the rooms they return. *)
Fixpoint createRooms (calls : list (string * option string * Ambient))
    : JS (list ChatRoom.t) :=
  match calls with
  | [] => mret []
  | (title, password, now) :: calls =>
      room ← createRoom title password now;
      rooms ← createRooms calls;
      mret (room :: rooms)
  end.

(** Where [uniqueId] takes the id from. *)
Inductive IdSource :=
  | FromCrypto (uuid : string)
  | FromClock (ms : Z) (suffix : string).

Definition id_source (now : Ambient) : IdSource :=
  match crypto_randomUUID now with
  | Some uuid => FromCrypto uuid
  | None =>
      FromClock (Date_now_id now) (JS_substring 2 9 (Math_random_id now))
  end.

(** The text form of a UUID, which is what [crypto.randomUUID()] returns:
    36 characters, hexadecimal digits in lower case with a hyphen at the
    positions 8, 13, 18 and 23. *)
Definition is_hex (c : ascii) : bool :=
  bool_decide (c ∈ ["0";"1";"2";"3";"4";"5";"6";"7";"8";"9";
                    "a";"b";"c";"d";"e";"f"]%char).

Fixpoint uuid_chars (i : nat) (cs : list ascii) : bool :=
  match cs with
  | [] => true
  | c :: cs =>
      (if bool_decide (i ∈ [8; 13; 18; 23]) then Ascii.eqb c "-" else is_hex c)
      && uuid_chars (S i) cs
  end.

Definition is_uuid (s : string) : bool :=
  bool_decide (String.length s = 36) &&
  uuid_chars 0 (String.list_ascii_of_string s).

(** Every UUID that the calls of a sequence got has the form of one. *)
Definition uuids_well_formed (calls : list Ambient) : Prop :=
  Forall (λ now, ∀ uuid, crypto_randomUUID now = Some uuid →
                         is_uuid uuid = true) calls.

Fixpoint underscore_free (s : string) : bool :=
  match s with
  | EmptyString => true
  | String c s => negb (Ascii.eqb c "_") && underscore_free s
  end.

(** The operations of the frame property, by the room id they target. *)
Definition targets (op : Op) (r : string) : Prop :=
  match op with
  | SaveRoom room => ChatRoom.id room = r
  | AddMessage roomId _ | AddMemo roomId _ | DeleteMemo roomId _ => roomId = r
  | CreateRoom _ _ _ | DeleteRoom _ => False
  end.

(** A call that completes normally and leaves localStorage and the
    notifier untouched. *)
Definition silent_noop (m : JS unit) (w : World) : Prop :=
  outcome m w = Normal tt ∧
  localStorage (exec m w) = localStorage w ∧
  dispatched (exec m w) = dispatched w.

(** No two rooms of the loaded collection have the same id. *)
Definition ids_distinct (w : World) : Prop :=
  NoDup (ChatRoom.id <$> load w).

(** Whether a call reaches [localStorage.setItem]: [saveRoom],
    [deleteRoom] and [createRoom] always do, the room edits only when
    [find] gives them a room. *)
Definition writes (op : Op) (w : World) : bool :=
  match op with
  | CreateRoom _ _ _ | SaveRoom _ | DeleteRoom _ => true
  | AddMessage roomId _ | AddMemo roomId _ | DeleteMemo roomId _ =>
      bool_decide (roomId ∈ ChatRoom.id <$> load w)
  end.

(** What the room edits leave alone in a room. *)
Definition meta (r : ChatRoom.t) : string * string * option string * Z * string :=
  (ChatRoom.id r, ChatRoom.title r, ChatRoom.password r,
   ChatRoom.createdAt r, ChatRoom.createdBy r).

(** [addMessage] called for each message of a list, in order. *)
Fixpoint addMessages (roomId : string) (messages : list Message.t) : JS unit :=
  match messages with
  | [] => mret tt
  | message :: messages =>
      addMessage roomId message;; addMessages roomId messages
  end.

(** ** The components of index.tsx *)

(** [String.prototype.trim] and [Date.prototype.toLocaleString] are the
    host's. *)
Variable String_trim : string → string.
Variable Date_toLocaleString : Z → string.

(** [loadRooms] of [App]: the new values of the cells [rooms] and
    [currentRoom], given the [currentRoom] of the render.  [sort] sorts
    the loaded array in place, so [find] searches the sorted array. *)
Definition loadRooms (currentRoom : option ChatRoom.t)
    : JS (list ChatRoom.t * option ChatRoom.t) :=
  loadedRooms ← getRooms;
  let loadedRooms :=
    Array_sort (λ a b, ChatRoom.createdAt b - ChatRoom.createdAt a)%Z
      loadedRooms in
  mret (loadedRooms,
        match currentRoom with
        | Some current =>
            match find (λ r, ChatRoom.id r = ChatRoom.id current) loadedRooms with
            | Some updatedCurrent => Some updatedCurrent
            | None => currentRoom
            end
        | None => currentRoom
        end).

Definition handleRoomUpdate := loadRooms.

Definition handleCreateRoom (title : string) (password : option string)
    (now : Ambient) (app : App.state) : JS App.state :=
  newRoom ← createRoom_index title password now;
  let session := UserSession.mk "AI Bot" ADMIN in
  mret (App.mk (Some newRoom) (Some session) false
          (App.joinModalRoom app) (App.showAdminLogin app)
          (App.isAdminMode app)).

(** [handleDeleteRoom]: [confirmed] is the answer of [window.confirm],
    [prev] the [rooms] cell that the functional update is applied to. *)
Definition handleDeleteRoom (confirmed : bool) (roomId : string)
    (prev : list ChatRoom.t) : JS (list ChatRoom.t) :=
  if confirmed then
    deleteRoom_strict roomId;;
    mret (filter (λ room, ChatRoom.id room ≠ roomId) prev)
  else mret prev.

Definition handleJoinRoom (room : ChatRoom.t) (app : App.state) : App.state :=
  if App.isAdminMode app then
    App.mk (Some room) (Some (UserSession.mk "AI Bot" ADMIN))
      (App.showCreateModal app) (App.joinModalRoom app)
      (App.showAdminLogin app) (App.isAdminMode app)
  else
    App.mk (App.currentRoom app) (App.currentUser app)
      (App.showCreateModal app) (Some room)
      (App.showAdminLogin app) (App.isAdminMode app).

Definition confirmJoin (nickname : string) (password : string)
    (app : App.state) : App.state :=
  match App.joinModalRoom app with
  | Some joinModalRoom =>
      App.mk (Some joinModalRoom) (Some (UserSession.mk nickname PARTICIPANT))
        (App.showCreateModal app) None
        (App.showAdminLogin app) (App.isAdminMode app)
  | None => app
  end.

Definition handleExitRoom (app : App.state) : App.state :=
  App.mk None None (App.showCreateModal app) (App.joinModalRoom app)
    (App.showAdminLogin app) (App.isAdminMode app).

(** [handleSubmit] of [JoinRoomModal], with [onJoin] acting on the state
    of the parent. *)
Definition JoinRoomModal_handleSubmit {P} (room : ChatRoom.t)
    (onJoin : string → string → P → P)
    (form : JoinRoomModal.state) (parent : P) : JoinRoomModal.state * P :=
  if negb (nonempty (String_trim (JoinRoomModal.nickname form)))
  then (form, parent)
  else if truthy_opt (ChatRoom.password room) &&
          bool_decide (ChatRoom.password room
                       ≠ Some (JoinRoomModal.password form))
  then (JoinRoomModal.mk (JoinRoomModal.nickname form)
          (JoinRoomModal.password form) "Incorrect password", parent)
  else (form,
        onJoin (JoinRoomModal.nickname form) (JoinRoomModal.password form)
          parent).

(** [handleSubmit] of [AdminLoginModal], as [App] renders it:
    [onSuccess] sets [isAdminMode] and [onClose] clears
    [showAdminLogin]. *)
Definition AdminLoginModal_handleSubmit (form : AdminLoginModal.state)
    (app : App.state) : AdminLoginModal.state * App.state :=
  if bool_decide (AdminLoginModal.password form = "331133")
  then (form,
        App.mk (App.currentRoom app) (App.currentUser app)
          (App.showCreateModal app) (App.joinModalRoom app) false true)
  else (AdminLoginModal.mk (AdminLoginModal.password form)
          "Incorrect admin password", app).

(** [handleSubmit] of [CreateRoomModal]: the arguments it passes to
    [onSubmit], if it calls it. *)
Definition CreateRoomModal_handleSubmit (form : CreateRoomModal.state)
    : option (string * option string) :=
  if negb (nonempty (String_trim (CreateRoomModal.title form))) then None
  else Some (CreateRoomModal.title form,
             if CreateRoomModal.hasPassword form
             then Some (CreateRoomModal.password form) else None).

(** The handlers of [ChatInterface].  [random36] and [now] are what
    [generateId] and [Date.now()] read; [onUpdateRoom] is the callback of
    the parent, whose result is returned when it is called.  [App] passes
    [handleRoomUpdate], whose current room is the [room] it renders the
    component with. *)
Definition handleSendMessage {P} (random36 : string) (now : Z)
    (room : ChatRoom.t) (session : UserSession.t) (onUpdateRoom : JS P)
    (st : ChatInterface.state) : JS (ChatInterface.state * option P) :=
  if negb (nonempty (String_trim (ChatInterface.inputText st)))
  then mret (st, None)
  else
    let message :=
      Message.mk (generateId random36) (UserSession.username session)
        (UserSession.role session) (ChatInterface.inputText st) now
        type_text in
    addMessage (ChatRoom.id room) message;;
    updated ← onUpdateRoom;
    mret (ChatInterface.mk "" (ChatInterface.showMemoInput st)
            (ChatInterface.newMemoTitle st) (ChatInterface.newMemoContent st),
          Some updated).

Definition handleAddMemo {P} (random36 : string) (now : Z)
    (room : ChatRoom.t) (onUpdateRoom : JS P)
    (st : ChatInterface.state) : JS (ChatInterface.state * option P) :=
  if negb (nonempty (String_trim (ChatInterface.newMemoTitle st))) ||
     negb (nonempty (String_trim (ChatInterface.newMemoContent st)))
  then mret (st, None)
  else
    let memo :=
      Memo.mk (generateId random36) (ChatInterface.newMemoTitle st)
        (ChatInterface.newMemoContent st) now in
    addMemo (ChatRoom.id room) memo;;
    updated ← onUpdateRoom;
    mret (ChatInterface.mk (ChatInterface.inputText st) false "" "",
          Some updated).

(** [handleExportChat]: the text of the blob. *)
Definition exportLine (m : Message.t) : string :=
  "[" +:+ Date_toLocaleString (Message.timestamp m) +:+ "] " +:+
  Message.senderName m +:+ ": " +:+ Message.text m.

Definition exportContent (room : ChatRoom.t) : string :=
  Array_join (String "010" "") (exportLine <$> ChatRoom.messages room).

(** ** Properties *)

Lemma getRooms_run w :
  ∃ c, getRooms w = (Normal (load w), mkWorld (localStorage w) (dispatched w) c).
Proof.
  unfold load, outcome, getRooms, try_catch, mbind, JS_bind,
    localStorage_getItem, mret, JS_ret.
  destruct w as [ls d c]; simpl.
  destruct (ls !! ROOMS_KEY) as [[s|rooms]|]; simpl; eauto.
  destruct (String.eqb s ""); simpl; eauto.
  unfold lift. destruct (JSON_parse s); simpl; eauto.
Qed.

Lemma load_document w1 w2 : document w1 = document w2 → load w1 = load w2.
Proof.
  unfold document, load, outcome, getRooms, try_catch, mbind, JS_bind,
    localStorage_getItem, mret, JS_ret. simpl. intros ->.
  destruct (localStorage w2 !! ROOMS_KEY) as [[s|rooms]|]; simpl; auto.
  destruct (String.eqb s ""); simpl; auto.
  unfold lift. destruct (JSON_parse s); simpl; auto.
Qed.

Lemma load_stringified w rooms :
  document w = Some (JSON_stringify rooms) → load w = rooms.
Proof.
  unfold document, load, outcome, getRooms, try_catch, mbind, JS_bind,
    localStorage_getItem, mret, JS_ret. simpl. by intros ->.
Qed.

(** *** Arrays: [findIndex], [find] and the replace-or-push step *)

Lemma find_list_find {A} (P : A → Prop) `{∀ x, Decision (P x)} l x :
  find P l = Some x ↔ ∃ i, list_find P l = Some (i, x).
Proof.
  unfold find. split.
  - destruct (list_find P l) as [[i y]|]; simpl; [|done].
    intros [= ->]. eauto.
  - by intros [i ->].
Qed.

Lemma find_elem_of {A} (P : A → Prop) `{∀ x, Decision (P x)} l x :
  find P l = Some x → x ∈ l ∧ P x.
Proof.
  intros [i Hi]%find_list_find. apply list_find_Some in Hi as (Hi & HP & _).
  split; [|done]. by eapply list_elem_of_lookup_2.
Qed.

Lemma find_id_is_Some r (rooms : list ChatRoom.t) :
  r ∈ ChatRoom.id <$> rooms ↔
  is_Some (find (λ x, ChatRoom.id x = r) rooms).
Proof.
  split.
  - intros (x & -> & Hx)%list_elem_of_fmap.
    destruct (list_find_elem_of (λ y, ChatRoom.id y = ChatRoom.id x) rooms x)
      as [[i y] Hy]; [done..|].
    exists y. apply find_list_find. eauto.
  - intros [x [Hx <-]%find_elem_of]. by apply list_elem_of_fmap_2.
Qed.

Lemma replace_or_push_found room rooms i x :
  list_find (λ r, ChatRoom.id r = ChatRoom.id room) rooms = Some (i, x) →
  replace_or_push room rooms = <[i := room]> rooms.
Proof.
  intros Hi. unfold replace_or_push, findIndex. rewrite Hi.
  rewrite bool_decide_eq_true_2 by lia. by rewrite Nat2Z.id.
Qed.

Lemma replace_or_push_fresh room rooms :
  list_find (λ r, ChatRoom.id r = ChatRoom.id room) rooms = None →
  replace_or_push room rooms = rooms ++ [room].
Proof.
  intros Hi. unfold replace_or_push, findIndex. rewrite Hi.
  by rewrite bool_decide_eq_false_2 by lia.
Qed.

(** Either way the saved room is in the array afterwards, found by its id. *)
Lemma find_replace_or_push room rooms :
  find (λ r, ChatRoom.id r = ChatRoom.id room) (replace_or_push room rooms)
  = Some room.
Proof.
  destruct (list_find (λ r, ChatRoom.id r = ChatRoom.id room) rooms)
    as [[i x]|] eqn:Hi.
  - rewrite (replace_or_push_found _ _ _ _ Hi).
    apply list_find_Some in Hi as (Hi & _ & Hlt).
    apply find_list_find. exists i. apply list_find_Some.
    split_and!; [|done|].
    + apply list_lookup_insert_eq. by eapply lookup_lt_Some.
    + intros j y Hj Hji. rewrite list_lookup_insert_ne in Hj by lia. eauto.
  - rewrite (replace_or_push_fresh _ _ Hi).
    apply find_list_find. exists (length rooms). apply list_find_Some.
    split_and!; [|done|].
    + by rewrite lookup_app_r, Nat.sub_diag.
    + intros j y Hj Hlt. rewrite lookup_app_l in Hj by done.
      eapply list_find_None in Hi. eapply Forall_lookup_1 in Hi; eauto.
Qed.

Lemma ids_replace_or_push room rooms :
  ChatRoom.id <$> replace_or_push room rooms =
  if decide (ChatRoom.id room ∈ ChatRoom.id <$> rooms)
  then ChatRoom.id <$> rooms
  else (ChatRoom.id <$> rooms) ++ [ChatRoom.id room].
Proof.
  destruct (list_find (λ r, ChatRoom.id r = ChatRoom.id room) rooms)
    as [[i x]|] eqn:Hi.
  - rewrite (replace_or_push_found _ _ _ _ Hi).
    apply list_find_Some in Hi as (Hi & Hid & _).
    rewrite decide_True.
    + rewrite list_fmap_insert, <-Hid. apply list_insert_id.
      by rewrite list_lookup_fmap, Hi.
    + rewrite <-Hid. apply list_elem_of_fmap_2. by eapply list_elem_of_lookup_2.
  - rewrite (replace_or_push_fresh _ _ Hi).
    rewrite decide_False; [by rewrite fmap_app|].
    intros (y & Hy & Hin)%list_elem_of_fmap.
    eapply list_find_None in Hi.
    by apply (proj1 (Forall_forall _ _) Hi y Hin).
Qed.

(** Rooms with another id are kept, in their order. *)
Lemma filter_replace_or_push r room rooms :
  ChatRoom.id room = r →
  filter (λ x, ChatRoom.id x ≠ r) (replace_or_push room rooms) =
  filter (λ x, ChatRoom.id x ≠ r) rooms.
Proof.
  intros Hr.
  destruct (list_find (λ r, ChatRoom.id r = ChatRoom.id room) rooms)
    as [[i x]|] eqn:Hi.
  - rewrite (replace_or_push_found _ _ _ _ Hi).
    apply list_find_Some in Hi as (Hi & Hid & _).
    rewrite insert_take_drop by (by eapply lookup_lt_Some).
    rewrite <-(take_drop_middle rooms i x) at 3 by done.
    rewrite !filter_app, !filter_cons.
    rewrite !decide_False; [done|..]; intros Hne; apply Hne; congruence.
  - rewrite (replace_or_push_fresh _ _ Hi).
    rewrite filter_app, filter_cons, decide_False, filter_nil, app_nil_r; [done|].
    intros Hne. by apply Hne.
Qed.

(** *** The operations, run *)

Lemma notifyChanges_run w :
  notifyChanges w =
    (Normal tt,
     mkWorld (localStorage w) (dispatched w ++ ["storage"; "storage-local"])
       (console w)).
Proof.
  unfold notifyChanges, mbind, JS_bind, window_dispatchEvent. simpl.
  by rewrite <-(assoc_L (++)).
Qed.

Lemma saveRoom_run room w :
  ∃ c, saveRoom room w =
    (Normal tt,
     mkWorld
       (<[ROOMS_KEY := JSON_stringify (replace_or_push room (load w))]>
          (localStorage w))
       (dispatched w ++ ["storage"; "storage-local"]) c).
Proof.
  destruct (getRooms_run w) as [c Hc]. exists c.
  unfold saveRoom, mbind, JS_bind. rewrite Hc. simpl.
  by rewrite notifyChanges_run.
Qed.

Lemma deleteRoom_run roomId w :
  ∃ c, deleteRoom roomId w =
    (Normal tt,
     mkWorld
       (<[ROOMS_KEY := JSON_stringify
            (filter (λ r, JSString (ChatRoom.id r) ≠ JSString roomId) (load w))]>
          (localStorage w))
       (dispatched w ++ ["storage"; "storage-local"]) c).
Proof.
  destruct (getRooms_run w) as [c Hc]. exists c.
  unfold deleteRoom, mbind, JS_bind. rewrite Hc. simpl.
  by rewrite notifyChanges_run.
Qed.

Lemma load_saveRoom room w :
  load (exec (saveRoom room) w) = replace_or_push room (load w).
Proof.
  destruct (saveRoom_run room w) as [c Hc]. unfold exec. rewrite Hc.
  apply load_stringified. unfold document. simpl. apply lookup_insert_eq.
Qed.

Lemma outcome_saveRoom room w : outcome (saveRoom room) w = Normal tt.
Proof.
  destruct (saveRoom_run room w) as [c Hc]. unfold outcome. by rewrite Hc.
Qed.

Lemma load_deleteRoom roomId w :
  load (exec (deleteRoom roomId) w) =
  filter (λ r, JSString (ChatRoom.id r) ≠ JSString roomId) (load w).
Proof.
  destruct (deleteRoom_run roomId w) as [c Hc]. unfold exec. rewrite Hc.
  apply load_stringified. unfold document. simpl. apply lookup_insert_eq.
Qed.

Lemma after_getRooms_localStorage w :
  localStorage (after_getRooms w) = localStorage w.
Proof.
  unfold after_getRooms, exec. destruct (getRooms_run w) as [c ->]. done.
Qed.

Lemma after_getRooms_document w : document (after_getRooms w) = document w.
Proof.
  unfold after_getRooms, exec. destruct (getRooms_run w) as [c ->]. done.
Qed.

Lemma after_getRooms_dispatched w : dispatched (after_getRooms w) = dispatched w.
Proof.
  unfold after_getRooms, exec. destruct (getRooms_run w) as [c ->]. done.
Qed.

Lemma load_after_getRooms w : load (after_getRooms w) = load w.
Proof. apply load_document, after_getRooms_document. Qed.

Lemma bind_getRooms {A} (k : list ChatRoom.t → JS A) w :
  (getRooms ≫= k) w = k (load w) (after_getRooms w).
Proof.
  unfold after_getRooms, exec, mbind, JS_bind.
  by destruct (getRooms_run w) as [c ->].
Qed.

(** [addMessage], [addMemo] and [deleteMemo] save the changed room when
    they find it, in the world their [getRooms] left. *)
Lemma addMessage_run roomId message w :
  addMessage roomId message w =
  match find (λ r, ChatRoom.id r = roomId) (load w) with
  | Some room =>
      saveRoom
        (ChatRoom.set_messages (ChatRoom.messages room ++ [message]) room)
        (after_getRooms w)
  | None => (Normal tt, after_getRooms w)
  end.
Proof.
  unfold addMessage. rewrite bind_getRooms.
  by destruct (find _ (load w)).
Qed.

Lemma addMemo_run roomId memo w :
  addMemo roomId memo w =
  match find (λ r, ChatRoom.id r = roomId) (load w) with
  | Some room =>
      saveRoom (ChatRoom.set_memos (ChatRoom.memos room ++ [memo]) room)
        (after_getRooms w)
  | None => (Normal tt, after_getRooms w)
  end.
Proof.
  unfold addMemo. rewrite bind_getRooms.
  by destruct (find _ (load w)).
Qed.

Lemma deleteMemo_run roomId memoId w :
  deleteMemo roomId memoId w =
  match find (λ r, ChatRoom.id r = roomId) (load w) with
  | Some room =>
      saveRoom
        (ChatRoom.set_memos
           (filter (λ m, Memo.id m ≠ memoId) (ChatRoom.memos room)) room)
        (after_getRooms w)
  | None => (Normal tt, after_getRooms w)
  end.
Proof.
  unfold deleteMemo. rewrite bind_getRooms.
  by destruct (find _ (load w)).
Qed.

(** *** The persistent store *)

(** C2: for every stored blob, absent, empty or not valid serialized data
    included, [getRooms] returns normally and never raises; it returns
    the empty collection when the blob is absent, empty or fails to
    parse. *)
Theorem getRooms_fails_soft w :
  (∃ rooms, outcome getRooms w = Normal rooms) ∧
  (document w = None → outcome getRooms w = Normal []) ∧
  (document w = Some (Raw "") → outcome getRooms w = Normal []) ∧
  (∀ s e, document w = Some (Raw s) → JSON_parse s = Throw e →
     outcome getRooms w = Normal []).
Proof.
  split.
  { destruct (getRooms_run w) as [c Hc]. exists (load w).
    unfold outcome. by rewrite Hc. }
  unfold document, outcome, getRooms, try_catch, mbind, JS_bind,
    localStorage_getItem, mret, JS_ret; simpl.
  split_and!.
  - by intros ->.
  - by intros ->.
  - intros s e -> Hs. simpl. destruct (String.eqb s ""); [done|].
    simpl. unfold lift. by rewrite Hs.
Qed.

(** *** The room repository *)

(** C1: when the persisted collection has a room with id [r],
    [addMessage r m] followed by a load yields a room with id [r], the
    old room with only its messages changed, whose messages are the old
    messages with [m] appended: [m] is last and the earlier messages are
    unchanged, in their order. *)
Theorem addMessage_appends w r m :
  r ∈ ChatRoom.id <$> load w →
  ∃ room room',
    find (λ x, ChatRoom.id x = r) (load w) = Some room ∧
    outcome (addMessage r m) w = Normal tt ∧
    find (λ x, ChatRoom.id x = r) (load (exec (addMessage r m) w))
      = Some room' ∧
    room' = ChatRoom.set_messages (ChatRoom.messages room ++ [m]) room ∧
    ChatRoom.messages room' = ChatRoom.messages room ++ [m] ∧
    last (ChatRoom.messages room') = Some m ∧
    take (length (ChatRoom.messages room)) (ChatRoom.messages room')
      = ChatRoom.messages room.
Proof.
  intros [room Hroom]%find_id_is_Some.
  exists room, (ChatRoom.set_messages (ChatRoom.messages room ++ [m]) room).
  destruct (find_elem_of _ _ _ Hroom) as [_ Hid].
  unfold outcome, exec. rewrite addMessage_run, Hroom.
  split_and!; [done|apply outcome_saveRoom| |done|done|..].
  - fold (exec (saveRoom
      (ChatRoom.set_messages (ChatRoom.messages room ++ [m]) room))
      (after_getRooms w)).
    rewrite load_saveRoom. subst r.
    exact (find_replace_or_push
             (ChatRoom.set_messages (ChatRoom.messages room ++ [m]) room) _).
  - simpl. apply last_snoc.
  - simpl. by rewrite take_app_length.
Qed.

(** C3: [addMessage], [addMemo] and [deleteMemo] with a room id that no
    room of the persisted collection has throw nothing and change
    nothing: localStorage is as before and no change is notified. *)
Theorem missing_room_is_noop w r message memo memoId :
  r ∉ ChatRoom.id <$> load w →
  silent_noop (addMessage r message) w ∧
  silent_noop (addMemo r memo) w ∧
  silent_noop (deleteMemo r memoId) w.
Proof.
  intros Hr.
  assert (find (λ x, ChatRoom.id x = r) (load w) = None) as Hnone.
  { apply eq_None_not_Some. by rewrite <-find_id_is_Some. }
  unfold silent_noop, outcome, exec.
  rewrite addMessage_run, addMemo_run, deleteMemo_run, Hnone. simpl.
  by rewrite after_getRooms_localStorage, after_getRooms_dispatched.
Qed.

(** What each operation does to the loaded collection. *)
Lemma load_found_and_saved (m : JS unit) room w :
  m w = saveRoom room (after_getRooms w) →
  load (exec m w) = replace_or_push room (load w).
Proof.
  intros Hm. unfold exec. rewrite Hm.
  fold (exec (saveRoom room) (after_getRooms w)).
  by rewrite load_saveRoom, load_after_getRooms.
Qed.

Lemma load_not_found (m : JS unit) w :
  m w = (Normal tt, after_getRooms w) → load (exec m w) = load w.
Proof.
  intros Hm. unfold exec. rewrite Hm. apply load_after_getRooms.
Qed.

Lemma load_addMessage r message w :
  load (exec (addMessage r message) w) =
  match find (λ x, ChatRoom.id x = r) (load w) with
  | Some room =>
      replace_or_push
        (ChatRoom.set_messages (ChatRoom.messages room ++ [message]) room)
        (load w)
  | None => load w
  end.
Proof.
  pose proof (addMessage_run r message w) as Hrun.
  destruct (find _ (load w)) as [room|];
    eauto using load_found_and_saved, load_not_found.
Qed.

Lemma load_addMemo r memo w :
  load (exec (addMemo r memo) w) =
  match find (λ x, ChatRoom.id x = r) (load w) with
  | Some room =>
      replace_or_push
        (ChatRoom.set_memos (ChatRoom.memos room ++ [memo]) room) (load w)
  | None => load w
  end.
Proof.
  pose proof (addMemo_run r memo w) as Hrun.
  destruct (find _ (load w)) as [room|];
    eauto using load_found_and_saved, load_not_found.
Qed.

Lemma load_deleteMemo r memoId w :
  load (exec (deleteMemo r memoId) w) =
  match find (λ x, ChatRoom.id x = r) (load w) with
  | Some room =>
      replace_or_push
        (ChatRoom.set_memos
           (filter (λ m, Memo.id m ≠ memoId) (ChatRoom.memos room)) room)
        (load w)
  | None => load w
  end.
Proof.
  pose proof (deleteMemo_run r memoId w) as Hrun.
  destruct (find _ (load w)) as [room|];
    eauto using load_found_and_saved, load_not_found.
Qed.

Lemma createRoom_run title password now w :
  createRoom title password now w =
  (Normal (newRoom title password now),
   exec (saveRoom (newRoom title password now)) w).
Proof.
  unfold exec, createRoom, mbind, JS_bind.
  by destruct (saveRoom_run (newRoom title password now) w) as [c ->].
Qed.

Lemma NoDup_ids_filter (P : ChatRoom.t → Prop) `{∀ x, Decision (P x)} rooms :
  NoDup (ChatRoom.id <$> rooms) → NoDup (ChatRoom.id <$> filter P rooms).
Proof.
  induction rooms as [|x rooms IH]; [done|].
  rewrite fmap_cons, NoDup_cons. intros [Hx Hnd].
  rewrite filter_cons. destruct (decide (P x)); [|by auto].
  rewrite fmap_cons, NoDup_cons. split; [|by auto].
  intros (y & Hy & [_ Hin]%list_elem_of_filter)%list_elem_of_fmap.
  apply Hx. rewrite Hy. by apply list_elem_of_fmap_2.
Qed.

Lemma NoDup_ids_replace_or_push room rooms :
  NoDup (ChatRoom.id <$> rooms) →
  NoDup (ChatRoom.id <$> replace_or_push room rooms).
Proof.
  intros Hnd. rewrite ids_replace_or_push.
  destruct (decide _) as [|Hfresh]; [done|].
  apply NoDup_app. split_and!; [done| |apply NoDup_singleton].
  intros x Hx ->%list_elem_of_singleton. done.
Qed.

Lemma outcome_deleteRoom r w : outcome (deleteRoom r) w = Normal tt.
Proof. unfold outcome. by destruct (deleteRoom_run r w) as [c ->]. Qed.

(** On string ids the two comparisons agree. *)
Lemma deleteRoom_strict_eq roomId : deleteRoom_strict roomId = deleteRoom roomId.
Proof. reflexivity. Qed.

(** C6: [deleteRoom r] followed by a load returns no room with id [r],
    whether or not one was there; the rooms kept are those whose id, as
    a string, differs from [r] as a string. *)
Theorem deleteRoom_then_load w r :
  outcome (deleteRoom r) w = Normal tt ∧
  load (exec (deleteRoom r) w) =
    filter (λ x, JSString (ChatRoom.id x) ≠ JSString r) (load w) ∧
  r ∉ ChatRoom.id <$> load (exec (deleteRoom r) w).
Proof.
  split_and!.
  - unfold outcome. by destruct (deleteRoom_run r w) as [c ->].
  - apply load_deleteRoom.
  - rewrite load_deleteRoom.
    intros (x & -> & [Hne _]%list_elem_of_filter)%list_elem_of_fmap.
    by apply Hne.
Qed.

(** C7: pairwise distinct room ids are an invariant of the repository
    operations: [saveRoom] replaces the entry with the same id and
    appends only when there is none. *)
Theorem ids_distinct_invariant op w :
  ids_distinct w → ids_distinct (exec (call op) w).
Proof.
  unfold ids_distinct. intros Hnd.
  destruct op as [title password now|room|r|r message|r memo|r memoId];
    simpl.
  - assert (exec (createRoom title password now;; mret tt) w
            = exec (saveRoom (newRoom title password now)) w) as ->.
    { unfold exec at 1, mbind, JS_bind. by rewrite createRoom_run. }
    rewrite load_saveRoom. by apply NoDup_ids_replace_or_push.
  - rewrite load_saveRoom. by apply NoDup_ids_replace_or_push.
  - rewrite load_deleteRoom. by apply NoDup_ids_filter.
  - rewrite load_addMessage. destruct (find _ _); [|done].
    by apply NoDup_ids_replace_or_push.
  - rewrite load_addMemo. destruct (find _ _); [|done].
    by apply NoDup_ids_replace_or_push.
  - rewrite load_deleteMemo. destruct (find _ _); [|done].
    by apply NoDup_ids_replace_or_push.
Qed.

(** C8: [createRoom title password] returns a room with exactly one
    message, a system message sent by [System] whose text is the date
    banner: the year, the month counted from one and the day of the
    clock, in decimal, each followed by its Korean unit; the room has no
    memos and is created by the bot; it is persisted and a following load
    has it. *)
Theorem createRoom_seeds_and_persists title password now w :
  ∃ room banner,
    outcome (createRoom title password now) w = Normal room ∧
    ChatRoom.title room = title ∧
    ChatRoom.password room = password ∧
    ChatRoom.messages room = [banner] ∧
    Message.type banner = type_system ∧
    Message.senderName banner = "System" ∧
    Message.role banner = ADMIN ∧
    Message.text banner =
      pretty (getFullYear now) +:+ "년 " +:+
      pretty (getMonth now + 1)%Z +:+ "월 " +:+
      pretty (getDate now) +:+ "일" ∧
    Message.timestamp banner = Date_now_msg now ∧
    ChatRoom.memos room = [] ∧
    ChatRoom.createdAt room = Date_now_created now ∧
    ChatRoom.createdBy room = "AI Bot" ∧
    room ∈ load (exec (createRoom title password now) w).
Proof.
  unfold outcome, exec. rewrite createRoom_run. simpl.
  eexists _, _. split_and!; try done.
  fold (exec (saveRoom (newRoom title password now)) w).
  rewrite load_saveRoom.
  pose proof (find_replace_or_push (newRoom title password now) (load w))
    as Hfind.
  by apply find_elem_of in Hfind as [? _].
Qed.

Lemma replace_or_push_idemp room rooms :
  replace_or_push room (replace_or_push room rooms) =
  replace_or_push room rooms.
Proof.
  destruct (proj1 (find_list_find _ _ _) (find_replace_or_push room rooms))
    as [i Hi].
  rewrite (replace_or_push_found _ _ _ _ Hi).
  apply list_find_Some in Hi as (Hi & _). by apply list_insert_id.
Qed.

Lemma document_saveRoom room w :
  document (exec (saveRoom room) w) =
  Some (JSON_stringify (replace_or_push room (load w))).
Proof.
  unfold exec. destruct (saveRoom_run room w) as [c ->].
  unfold document. simpl. apply lookup_insert_eq.
Qed.

Lemma document_deleteMemo r memoId w :
  document (exec (deleteMemo r memoId) w) =
  match find (λ x, ChatRoom.id x = r) (load w) with
  | Some _ => Some (JSON_stringify (load (exec (deleteMemo r memoId) w)))
  | None => document w
  end.
Proof.
  rewrite load_deleteMemo. unfold exec. rewrite deleteMemo_run.
  destruct (find _ (load w)) as [room|].
  - match goal with |- context [saveRoom ?r ?w] => fold (exec (saveRoom r) w) end.
    by rewrite document_saveRoom, load_after_getRooms.
  - apply after_getRooms_document.
Qed.

(** The inlined [createRoom] of index.tsx seeds and persists the room in
    the same way; only the ids are made differently. *)
Lemma createRoom_index_seeds_and_persists title password now w :
  ∃ room banner,
    outcome (createRoom_index title password now) w = Normal room ∧
    ChatRoom.id room = generateId (Math_random_id now) ∧
    ChatRoom.messages room = [banner] ∧
    Message.type banner = type_system ∧
    Message.text banner = dateText now ∧
    ChatRoom.memos room = [] ∧
    ChatRoom.createdBy room = "AI Bot" ∧
    room ∈ load (exec (createRoom_index title password now) w).
Proof.
  assert (createRoom_index title password now w =
          (Normal (newRoom_index title password now),
           exec (saveRoom (newRoom_index title password now)) w)) as Hrun.
  { unfold exec, createRoom_index, mbind, JS_bind.
    by destruct (saveRoom_run (newRoom_index title password now) w) as [c ->]. }
  unfold outcome, exec. rewrite Hrun. simpl.
  eexists _, _. split_and!; try done.
  fold (exec (saveRoom (newRoom_index title password now)) w).
  rewrite load_saveRoom.
  pose proof (find_replace_or_push (newRoom_index title password now) (load w))
    as Hfind.
  by apply find_elem_of in Hfind as [? _].
Qed.

(** C9: [deleteMemo] is idempotent: a second call with the same
    arguments leaves the room's memos, the loaded collection and the
    stored document as the first call left them. *)
Theorem deleteMemo_idempotent w r memoId :
  let once := exec (deleteMemo r memoId) w in
  let twice := exec (deleteMemo r memoId) once in
  ChatRoom.memos <$> find (λ x, ChatRoom.id x = r) (load twice) =
    ChatRoom.memos <$> find (λ x, ChatRoom.id x = r) (load once) ∧
  load twice = load once ∧
  document twice = document once.
Proof.
  intros once twice.
  assert (load twice = load once) as Hload.
  { unfold twice. rewrite load_deleteMemo.
    destruct (find (λ x, ChatRoom.id x = r) (load once)) as [room1|] eqn:H1;
      [|done].
    unfold once in *. rewrite load_deleteMemo in H1 |- *.
    destruct (find (λ x, ChatRoom.id x = r) (load w)) as [room|] eqn:H0.
    - destruct (find_elem_of _ _ _ H0) as [_ <-].
      set (room' := ChatRoom.set_memos _ room) in *.
      pose proof (find_replace_or_push room' (load w)) as Hfind.
      change (ChatRoom.id room') with (ChatRoom.id room) in Hfind.
      rewrite Hfind in H1. injection H1 as <-.
      replace (ChatRoom.set_memos _ room') with room'.
      { apply replace_or_push_idemp. }
      unfold room', ChatRoom.set_memos; simpl. f_equal.
      symmetry. by apply list_filter_filter_l.
    - congruence. }
  split_and!; [by rewrite Hload|done|].
  unfold twice. rewrite document_deleteMemo.
  fold twice. rewrite Hload.
  destruct (find (λ x, ChatRoom.id x = r) (load once)) as [room1|] eqn:H1;
    [|done].
  unfold once in *. rewrite document_deleteMemo.
  rewrite load_deleteMemo in H1.
  destruct (find (λ x, ChatRoom.id x = r) (load w)) as [room|] eqn:H0;
    [done|congruence].
Qed.

(** C10: an operation that targets the room id [r] leaves every room
    with another id as it was: the rooms whose id differs from [r] are
    the same, in the same order, before and after. *)
Theorem other_rooms_unchanged op r w :
  targets op r →
  filter (λ x, ChatRoom.id x ≠ r) (load (exec (call op) w)) =
  filter (λ x, ChatRoom.id x ≠ r) (load w).
Proof.
  destruct op as [title password now|room|r'|r' message|r' memo|r' memoId];
    simpl; try done.
  - intros Hr. rewrite load_saveRoom. by apply filter_replace_or_push.
  - intros ->. rewrite load_addMessage.
    destruct (find _ (load w)) as [room|] eqn:Hfind; [|done].
    apply filter_replace_or_push. by apply find_elem_of in Hfind as [_ ?].
  - intros ->. rewrite load_addMemo.
    destruct (find _ (load w)) as [room|] eqn:Hfind; [|done].
    apply filter_replace_or_push. by apply find_elem_of in Hfind as [_ ?].
  - intros ->. rewrite load_deleteMemo.
    destruct (find _ (load w)) as [room|] eqn:Hfind; [|done].
    apply filter_replace_or_push. by apply find_elem_of in Hfind as [_ ?].
Qed.

(** *** Room ids *)

Lemma underscore_free_pretty_N_go x s :
  underscore_free s = true → underscore_free (pretty_N_go x s) = true.
Proof.
  revert s. induction (N.lt_wf_0 x) as [x _ IH]; intros s Hs.
  destruct (decide (x = 0)%N) as [->|Hx]; [by rewrite pretty_N_go_0|].
  rewrite pretty_N_go_step by lia. apply IH.
  - apply N.div_lt; lia.
  - simpl. rewrite Hs, andb_true_r.
    unfold pretty_N_char. by repeat case_match.
Qed.

Lemma underscore_free_pretty_Z (z : Z) : underscore_free (pretty z) = true.
Proof.
  assert (∀ p : positive, underscore_free (pretty p) = true) as Hpos.
  { intros p. unfold pretty, pretty_positive, pretty, pretty_N.
    case_decide; [done|]. by apply underscore_free_pretty_N_go. }
  destruct z as [|p|p]; [done|apply Hpos|].
  change (pretty (Z.neg p)) with ("-" +:+ pretty p). simpl. apply Hpos.
Qed.

Lemma app_underscore_inj a b s1 s2 :
  underscore_free a = true → underscore_free b = true →
  a +:+ "_" +:+ s1 = b +:+ "_" +:+ s2 → a = b ∧ s1 = s2.
Proof.
  revert b. induction a as [|c a IH]; intros [|d b]; cbn.
  - intros _ _ ?. by simplify_eq.
  - intros _ [Hd _]%andb_true_iff ?. by simplify_eq/=.
  - intros [Hc _]%andb_true_iff _ ?. by simplify_eq/=.
  - intros [_ Ha]%andb_true_iff [_ Hb]%andb_true_iff Hab.
    injection Hab as -> Hab.
    destruct (IH b Ha Hb Hab) as [-> ->]. done.
Qed.

(** A UUID does not look like a fallback id: it does not start with [r]. *)
Lemma is_uuid_not_fallback uuid rest :
  is_uuid uuid = true → uuid ≠ "room_" +:+ rest.
Proof.
  intros Huuid ->. unfold is_uuid in Huuid.
  apply andb_true_iff in Huuid as [_ Hchars].
  change (String.list_ascii_of_string ("room_" +:+ rest))
    with ("r"%char :: String.list_ascii_of_string ("oom_" +:+ rest)) in Hchars.
  simpl in Hchars. discriminate.
Qed.

(** The id determines what the id source gave, across the two branches
    too. *)
Lemma uniqueId_id_source now1 now2 :
  uuids_well_formed [now1; now2] →
  uniqueId now1 = uniqueId now2 → id_source now1 = id_source now2.
Proof.
  intros [H1 [H2 _]%Forall_cons]%Forall_cons.
  unfold uniqueId, id_source.
  destruct (crypto_randomUUID now1) as [u1|],
    (crypto_randomUUID now2) as [u2|].
  - congruence.
  - intros Heq. destruct (is_uuid_not_fallback _ _ (H1 u1 eq_refl) Heq).
  - intros Heq.
    destruct (is_uuid_not_fallback _ _ (H2 u2 eq_refl) (eq_sym Heq)).
  - intros [= Heq].
    apply app_underscore_inj in Heq as [Hms ->];
      [|apply underscore_free_pretty_Z..].
    by apply (inj pretty) in Hms as ->.
Qed.

Lemma createRooms_run calls w :
  ∃ w', createRooms calls w =
    (Normal ((λ call, newRoom call.1.1 call.1.2 call.2) <$> calls), w').
Proof.
  revert w. induction calls as [|[[title password] now] calls IH]; intros w.
  - by eexists.
  - simpl. unfold mbind, JS_bind. rewrite createRoom_run.
    destruct (IH (exec (saveRoom (newRoom title password now)) w))
      as [w' ->].
    by eexists.
Qed.

Lemma NoDup_fmap_determined {A B C} (f : A → B) (g : A → C) (l : list A) :
  (∀ x y, x ∈ l → y ∈ l → f x = f y → g x = g y) →
  NoDup (g <$> l) → NoDup (f <$> l).
Proof.
  induction l as [|x l IH]; [constructor|].
  rewrite !fmap_cons, !NoDup_cons. intros Hfg [Hx Hnd]. split.
  - intros (y & Hy & Hin)%list_elem_of_fmap. apply Hx.
    rewrite (Hfg x y); [by apply list_elem_of_fmap_2|left|by right|done].
  - apply IH; [|done]. intros y z ??. apply Hfg; by right.
Qed.

(** C5, as the code has it: the id of a created room is
    [crypto.randomUUID()] when that is there, and
    [room_<Date.now()>_<seven characters of Math.random() in base 36>]
    when it is not; a sequence of [createRoom] calls, whichever branch
    each of them takes, whose id sources never repeat a value (the UUID,
    or the pair of the timestamp and the random suffix) returns rooms
    with pairwise distinct ids. *)
Theorem createRooms_ids_distinct calls w :
  uuids_well_formed (snd <$> calls) →
  NoDup (id_source ∘ snd <$> calls) →
  ∃ rooms,
    outcome (createRooms calls) w = Normal rooms ∧
    ChatRoom.id <$> rooms =
      (λ call,
         match crypto_randomUUID call.2 with
         | Some uuid => uuid
         | None =>
             "room_" +:+ pretty (Date_now_id call.2) +:+ "_" +:+
             JS_substring 2 9 (Math_random_id call.2)
         end) <$> calls ∧
    NoDup (ChatRoom.id <$> rooms).
Proof.
  intros Hcrypto Hnd. destruct (createRooms_run calls w) as [w' Hrun].
  eexists. unfold outcome. rewrite Hrun. split_and!; [done|..].
  - rewrite <-list_fmap_compose. done.
  - rewrite <-list_fmap_compose.
    apply (NoDup_fmap_determined _ (id_source ∘ snd)); [|done].
    intros x y Hx Hy. simpl. apply uniqueId_id_source.
    unfold uuids_well_formed in *. rewrite Forall_forall in Hcrypto.
    repeat constructor; apply Hcrypto; by apply list_elem_of_fmap_2.
Qed.

(** ** Further properties of the storage service *)

(** X1: [getRooms] only reads: localStorage and the notifier are as
    before; the console gets one line exactly when a stored non-empty
    text makes [JSON.parse] throw. *)
Theorem getRooms_only_reads w :
  localStorage (exec getRooms w) = localStorage w ∧
  dispatched (exec getRooms w) = dispatched w ∧
  console (exec getRooms w) =
    console w ++
    match document w with
    | Some (Raw s) =>
        if String.eqb s "" then []
        else match JSON_parse s with
             | Throw _ => ["Failed to parse rooms from localStorage"]
             | Normal _ => []
             end
    | _ => []
    end.
Proof.
  unfold document, exec, getRooms, try_catch, mbind, JS_bind,
    localStorage_getItem, mret, JS_ret. destruct w as [ls d c]; simpl.
  destruct (ls !! ROOMS_KEY) as [[s|rooms]|]; simpl;
    rewrite ?app_nil_r; try done.
  destruct (String.eqb s ""); simpl; rewrite ?app_nil_r; [done|].
  unfold lift. destruct (JSON_parse s); simpl; by rewrite ?app_nil_r.
Qed.

Lemma find_id_None r (rooms : list ChatRoom.t) :
  r ∉ ChatRoom.id <$> rooms → find (λ x, ChatRoom.id x = r) rooms = None.
Proof. intros Hr. apply eq_None_not_Some. by rewrite <-find_id_is_Some. Qed.

Lemma exec_saveRoom room w :
  document (exec (saveRoom room) w) =
    Some (JSON_stringify (replace_or_push room (load w))) ∧
  dispatched (exec (saveRoom room) w) =
    dispatched w ++ ["storage"; "storage-local"].
Proof.
  split; [apply document_saveRoom|].
  unfold exec. by destruct (saveRoom_run room w) as [c ->].
Qed.

Lemma exec_deleteRoom r w :
  document (exec (deleteRoom r) w) =
    Some (JSON_stringify
            (filter (λ x, JSString (ChatRoom.id x) ≠ JSString r) (load w))) ∧
  dispatched (exec (deleteRoom r) w) =
    dispatched w ++ ["storage"; "storage-local"].
Proof.
  unfold exec. destruct (deleteRoom_run r w) as [c ->]. split; [|done].
  unfold document. simpl. apply lookup_insert_eq.
Qed.

(** What a room edit does, by whether [find] gives it a room. *)
Lemma edit_run (m : JS unit) r (change : ChatRoom.t → ChatRoom.t) w :
  m w = match find (λ x, ChatRoom.id x = r) (load w) with
        | Some room => saveRoom (change room) (after_getRooms w)
        | None => (Normal tt, after_getRooms w)
        end →
  match find (λ x, ChatRoom.id x = r) (load w) with
  | Some room =>
      outcome m w = Normal tt ∧
      load (exec m w) = replace_or_push (change room) (load w) ∧
      document (exec m w) =
        Some (JSON_stringify (replace_or_push (change room) (load w))) ∧
      dispatched (exec m w) = dispatched w ++ ["storage"; "storage-local"]
  | None =>
      outcome m w = Normal tt ∧
      load (exec m w) = load w ∧
      localStorage (exec m w) = localStorage w ∧
      dispatched (exec m w) = dispatched w
  end.
Proof.
  intros Hm. unfold outcome, exec. rewrite Hm.
  destruct (find _ (load w)) as [room|]; simpl.
  - fold (outcome (saveRoom (change room)) (after_getRooms w)).
    fold (exec (saveRoom (change room)) (after_getRooms w)).
    destruct (exec_saveRoom (change room) (after_getRooms w)) as [Hdoc Hev].
    rewrite outcome_saveRoom, load_saveRoom, Hdoc, Hev.
    by rewrite load_after_getRooms, after_getRooms_dispatched.
  - by rewrite load_after_getRooms, after_getRooms_localStorage,
      after_getRooms_dispatched.
Qed.

(** X2: every repository operation completes normally; it notifies once,
    with [storage] and then [storage-local], exactly when it writes, and
    what it writes is the text of the collection a load then returns;
    without a write localStorage is untouched. *)
Theorem operations_notify_once op w :
  outcome (call op) w = Normal tt ∧
  dispatched (exec (call op) w) =
    dispatched w ++ (if writes op w then ["storage"; "storage-local"] else []) ∧
  (if writes op w
   then document (exec (call op) w) =
          Some (JSON_stringify (load (exec (call op) w)))
   else localStorage (exec (call op) w) = localStorage w).
Proof.
  destruct op as [title password now|room|r|r message|r memo|r memoId]; simpl.
  - unfold outcome, exec, mbind, JS_bind. rewrite createRoom_run. simpl.
    destruct (exec_saveRoom (newRoom title password now) w) as [Hdoc Hev].
    by rewrite Hdoc, Hev, load_saveRoom.
  - destruct (exec_saveRoom room w) as [Hdoc Hev].
    by rewrite outcome_saveRoom, Hdoc, Hev, load_saveRoom.
  - destruct (exec_deleteRoom r w) as [Hdoc Hev].
    rewrite Hdoc, Hev, load_deleteRoom. split_and!; try done.
    by destruct (outcome_deleteRoom r w).
  - pose proof (edit_run _ _ _ w (addMessage_run r message w)) as Hrun.
    case_bool_decide as Hr.
    + apply find_id_is_Some in Hr as [room Hroom]. rewrite Hroom in Hrun.
      destruct Hrun as (-> & -> & -> & ->). done.
    + rewrite (find_id_None _ _ Hr) in Hrun.
      destruct Hrun as (-> & _ & -> & ->). by rewrite app_nil_r.
  - pose proof (edit_run _ _ _ w (addMemo_run r memo w)) as Hrun.
    case_bool_decide as Hr.
    + apply find_id_is_Some in Hr as [room Hroom]. rewrite Hroom in Hrun.
      destruct Hrun as (-> & -> & -> & ->). done.
    + rewrite (find_id_None _ _ Hr) in Hrun.
      destruct Hrun as (-> & _ & -> & ->). by rewrite app_nil_r.
  - pose proof (edit_run _ _ _ w (deleteMemo_run r memoId w)) as Hrun.
    case_bool_decide as Hr.
    + apply find_id_is_Some in Hr as [room Hroom]. rewrite Hroom in Hrun.
      destruct Hrun as (-> & -> & -> & ->). done.
    + rewrite (find_id_None _ _ Hr) in Hrun.
      destruct Hrun as (-> & _ & -> & ->). by rewrite app_nil_r.
Qed.

(** X3: [saveRoom] then a load: the saved room is found by its id, and
    saving the same room again changes neither the loaded collection nor
    the stored document. *)
Theorem saveRoom_then_find room w :
  let saved := exec (saveRoom room) w in
  find (λ x, ChatRoom.id x = ChatRoom.id room) (load saved) = Some room ∧
  load (exec (saveRoom room) saved) = load saved ∧
  document (exec (saveRoom room) saved) = document saved.
Proof.
  intros saved. unfold saved.
  rewrite !document_saveRoom, !load_saveRoom, replace_or_push_idemp.
  split_and!; [apply find_replace_or_push|done..].
Qed.

(** X4: where [saveRoom] puts the room: over the first stored room with
    its id, at that room's index, the length and the order of the ids
    kept; at the end when no stored room has its id. *)
Theorem saveRoom_position room w :
  let rooms := load w in
  let rooms' := load (exec (saveRoom room) w) in
  (ChatRoom.id room ∈ ChatRoom.id <$> rooms →
   ∃ i old,
     list_find (λ x, ChatRoom.id x = ChatRoom.id room) rooms = Some (i, old) ∧
     rooms' = <[i := room]> rooms ∧
     length rooms' = length rooms ∧
     ChatRoom.id <$> rooms' = ChatRoom.id <$> rooms) ∧
  (ChatRoom.id room ∉ ChatRoom.id <$> rooms → rooms' = rooms ++ [room]).
Proof.
  intros rooms rooms'. unfold rooms'. rewrite load_saveRoom. fold rooms. split.
  - intros Hin. pose proof (ids_replace_or_push room rooms) as Hids.
    rewrite decide_True in Hids by done.
    apply find_id_is_Some in Hin as [old [i Hi]%find_list_find].
    exists i, old. rewrite (replace_or_push_found _ _ _ _ Hi) in Hids |- *.
    split_and!; [done|done|apply length_insert|done].
  - intros Hout. apply replace_or_push_fresh.
    apply find_id_None in Hout. unfold find in Hout.
    by destruct (list_find _ rooms).
Qed.

Lemma load_unreadable w s e :
  document w = Some (Raw s) → JSON_parse s = Throw e → load w = [].
Proof.
  unfold document, load, outcome, getRooms, try_catch, mbind, JS_bind,
    localStorage_getItem, mret, JS_ret. simpl. intros -> Hparse. simpl.
  destruct (String.eqb s ""); [done|]. simpl. unfold lift. by rewrite Hparse.
Qed.

(** X5: a stored text that [JSON.parse] rejects is lost at the first
    write: [saveRoom] leaves the document of the saved room alone and
    [deleteRoom] the document of the empty collection, while a room edit,
    which finds no room, leaves the text in place. *)
Theorem first_write_replaces_unreadable_text s e room r message w :
  document w = Some (Raw s) → JSON_parse s = Throw e →
  document (exec (saveRoom room) w) = Some (JSON_stringify [room]) ∧
  document (exec (deleteRoom r) w) = Some (JSON_stringify []) ∧
  document (exec (addMessage r message) w) = Some (Raw s).
Proof.
  intros Hdoc Hparse.
  pose proof (load_unreadable _ _ _ Hdoc Hparse) as Hload.
  rewrite document_saveRoom. destruct (exec_deleteRoom r w) as [-> _].
  rewrite Hload. split_and!; [done..|].
  pose proof (edit_run _ _ _ w (addMessage_run r message w)) as Hrun.
  rewrite Hload in Hrun. simpl in Hrun. destruct Hrun as (_ & _ & Hls & _).
  unfold document in *. by rewrite Hls.
Qed.

Lemma filter_id_absent r (rooms : list ChatRoom.t) :
  r ∉ ChatRoom.id <$> rooms →
  filter (λ x, JSString (ChatRoom.id x) ≠ JSString r) rooms = rooms.
Proof.
  intros Hr. induction rooms as [|x rooms IH]; [done|].
  rewrite fmap_cons, not_elem_of_cons in Hr. destruct Hr as [Hx Hr].
  rewrite filter_cons, decide_True by (unfold JSString; congruence).
  by rewrite IH.
Qed.

(** X6: [deleteRoom] with an id that no stored room has leaves the loaded
    collection as it was; [deleteRoom] twice is [deleteRoom] once; and two
    deletions give the same collection in either order. *)
Theorem deleteRoom_absent_idempotent_commutes r1 r2 w :
  (r1 ∉ ChatRoom.id <$> load w → load (exec (deleteRoom r1) w) = load w) ∧
  load (exec (deleteRoom r1) (exec (deleteRoom r1) w)) =
    load (exec (deleteRoom r1) w) ∧
  load (exec (deleteRoom r2) (exec (deleteRoom r1) w)) =
    load (exec (deleteRoom r1) (exec (deleteRoom r2) w)).
Proof.
  rewrite !load_deleteRoom. split_and!.
  - apply filter_id_absent.
  - rewrite list_filter_filter. apply list_filter_iff. intros x.
    split; [intros [? _]; assumption|intros ?; split; assumption].
  - rewrite !list_filter_filter. apply list_filter_iff. intros x.
    split; intros [? ?]; split; assumption.
Qed.

(** X7: [createRoom] with an id that no stored room has appends the new
    room after the stored ones, and deleting the returned id then gives
    back the collection as it was loaded before. *)
Theorem createRoom_fresh_appends title password now w :
  uniqueId now ∉ ChatRoom.id <$> load w →
  let created := exec (createRoom title password now) w in
  load created = load w ++ [newRoom title password now] ∧
  load (exec (deleteRoom (uniqueId now)) created) = load w.
Proof.
  intros Hfresh created.
  assert (load created = load w ++ [newRoom title password now]) as Hload.
  { unfold created, exec. rewrite createRoom_run. simpl.
    rewrite load_saveRoom. apply replace_or_push_fresh.
    apply find_id_None in Hfresh. unfold find in Hfresh.
    by destruct (list_find _ (load w)). }
  split; [done|]. rewrite load_deleteRoom, Hload, filter_app, filter_cons.
  rewrite decide_False by (intros Hne; by apply Hne).
  by rewrite filter_nil, app_nil_r, filter_id_absent.
Qed.

(** X8: [createRoom] does not look at the stored ids: when a stored room
    already has the generated id, the new room takes its place, and the
    messages and memos of that room are gone. *)
Theorem createRoom_taken_id_replaces title password now w :
  uniqueId now ∈ ChatRoom.id <$> load w →
  let created := exec (createRoom title password now) w in
  ∃ i old,
    list_find (λ x, ChatRoom.id x = uniqueId now) (load w) = Some (i, old) ∧
    load created = <[i := newRoom title password now]> (load w) ∧
    length (load created) = length (load w) ∧
    find (λ x, ChatRoom.id x = uniqueId now) (load created)
      = Some (newRoom title password now).
Proof.
  intros Htaken created.
  apply find_id_is_Some in Htaken as [old [i Hi]%find_list_find].
  exists i, old.
  assert (load created = replace_or_push (newRoom title password now) (load w))
    as Hload.
  { unfold created, exec. rewrite createRoom_run. simpl. apply load_saveRoom. }
  rewrite Hload. split_and!; [done| | |].
  - exact (replace_or_push_found (newRoom title password now) _ _ _ Hi).
  - rewrite (replace_or_push_found (newRoom title password now) _ _ _ Hi).
    apply length_insert.
  - exact (find_replace_or_push (newRoom title password now) (load w)).
Qed.

(** The room an edit finds is found again, changed, after the edit. *)
Lemma find_after_edit r (change : ChatRoom.t → ChatRoom.t) room rooms :
  (∀ x, ChatRoom.id (change x) = ChatRoom.id x) →
  find (λ x, ChatRoom.id x = r) rooms = Some room →
  find (λ x, ChatRoom.id x = r) (replace_or_push (change room) rooms)
    = Some (change room).
Proof.
  intros Hid Hroom. destruct (find_elem_of _ _ _ Hroom) as [_ <-].
  rewrite <-(Hid room). apply find_replace_or_push.
Qed.

(** X9: when the persisted collection has a room with id [r],
    [addMemo r memo] followed by a load yields that room with [memo]
    appended to its memos and nothing else changed. *)
Theorem addMemo_appends w r memo :
  r ∈ ChatRoom.id <$> load w →
  ∃ room room',
    find (λ x, ChatRoom.id x = r) (load w) = Some room ∧
    find (λ x, ChatRoom.id x = r) (load (exec (addMemo r memo) w))
      = Some room' ∧
    room' = ChatRoom.set_memos (ChatRoom.memos room ++ [memo]) room ∧
    last (ChatRoom.memos room') = Some memo ∧
    ChatRoom.messages room' = ChatRoom.messages room.
Proof.
  intros [room Hroom]%find_id_is_Some.
  exists room, (ChatRoom.set_memos (ChatRoom.memos room ++ [memo]) room).
  rewrite load_addMemo, Hroom. split_and!; [done| |done| |done].
  - by apply (find_after_edit r
               (λ x, ChatRoom.set_memos (ChatRoom.memos x ++ [memo]) x)).
  - simpl. apply last_snoc.
Qed.

(** X10: when the persisted collection has a room with id [r],
    [deleteMemo r memoId] followed by a load yields that room without
    the memos whose id is [memoId]: none of them is left, every other
    memo is kept, in the old order, and the messages are untouched; when
    the room has no such memo it is loaded as it was. *)
Theorem deleteMemo_removes_exactly w r memoId :
  r ∈ ChatRoom.id <$> load w →
  ∃ room room',
    find (λ x, ChatRoom.id x = r) (load w) = Some room ∧
    find (λ x, ChatRoom.id x = r) (load (exec (deleteMemo r memoId) w))
      = Some room' ∧
    (memoId ∉ Memo.id <$> ChatRoom.memos room') ∧
    filter (λ m, Memo.id m ≠ memoId) (ChatRoom.memos room)
      = ChatRoom.memos room' ∧
    ChatRoom.memos room' `sublist_of` ChatRoom.memos room ∧
    ChatRoom.messages room' = ChatRoom.messages room ∧
    (memoId ∉ Memo.id <$> ChatRoom.memos room →
     load (exec (deleteMemo r memoId) w) = load w).
Proof.
  intros [room Hroom]%find_id_is_Some.
  exists room,
    (ChatRoom.set_memos
       (filter (λ m, Memo.id m ≠ memoId) (ChatRoom.memos room)) room).
  rewrite load_deleteMemo, Hroom.
  split_and!.
  - done.
  - by apply (find_after_edit r
      (λ x, ChatRoom.set_memos
              (filter (λ m, Memo.id m ≠ memoId) (ChatRoom.memos x)) x)).
  - simpl. intros (m & -> & [Hne _]%list_elem_of_filter)%list_elem_of_fmap.
    by apply Hne.
  - done.
  - simpl. apply sublist_filter.
  - done.
  - intros Habsent.
    assert (filter (λ m, Memo.id m ≠ memoId) (ChatRoom.memos room)
            = ChatRoom.memos room) as ->.
    { induction (ChatRoom.memos room) as [|m ms IH]; [done|].
      rewrite fmap_cons, not_elem_of_cons in Habsent.
      destruct Habsent as [Hm Hms].
      rewrite filter_cons, decide_True by congruence. by rewrite IH. }
    assert (ChatRoom.set_memos (ChatRoom.memos room) room = room) as ->
      by by destruct room.
    apply find_list_find in Hroom as [i Hi].
    destruct (find_elem_of (λ x, ChatRoom.id x = r) (load w) room) as [_ <-].
    { apply find_list_find. eauto. }
    rewrite (replace_or_push_found _ _ _ _ Hi).
    apply list_find_Some in Hi as (Hi & _). by apply list_insert_id.
Qed.

(** X11: messages added one after another are appended in that order:
    after [addMessages r ms] the room with id [r] has its old messages
    followed by [ms], and is otherwise as it was. *)
Theorem addMessages_appends_in_order w r ms :
  r ∈ ChatRoom.id <$> load w →
  ∃ room,
    find (λ x, ChatRoom.id x = r) (load w) = Some room ∧
    outcome (addMessages r ms) w = Normal tt ∧
    find (λ x, ChatRoom.id x = r) (load (exec (addMessages r ms) w))
      = Some (ChatRoom.set_messages (ChatRoom.messages room ++ ms) room).
Proof.
  intros [room Hroom]%find_id_is_Some. exists room. split; [done|].
  revert w room Hroom. induction ms as [|m ms IH]; intros w room Hroom.
  - simpl. rewrite app_nil_r. unfold outcome, exec. simpl.
    split; [done|]. rewrite Hroom. by destruct room.
  - pose proof (edit_run _ _ _ w (addMessage_run r m w)) as Hrun.
    rewrite Hroom in Hrun. destruct Hrun as (Hout & Hload & _).
    set (room1 := ChatRoom.set_messages (ChatRoom.messages room ++ [m]) room)
      in *.
    destruct (IH (exec (addMessage r m) w) room1) as [Hout' Hfind'].
    { rewrite Hload.
      by apply (find_after_edit r
        (λ x, ChatRoom.set_messages (ChatRoom.messages x ++ [m]) x)). }
    unfold outcome, exec in *. simpl. unfold mbind, JS_bind.
    destruct (addMessage r m w) as [[[]|e] w1]; simplify_eq/=.
    split; [done|]. rewrite Hfind'. unfold room1, ChatRoom.set_messages. simpl.
    by rewrite <-(assoc_L (++)).
Qed.

Lemma fmap_after_edit {B} (f : ChatRoom.t → B) r
    (change : ChatRoom.t → ChatRoom.t) rooms :
  (∀ x, ChatRoom.id (change x) = ChatRoom.id x) →
  (∀ x, f (change x) = f x) →
  f <$> match find (λ x, ChatRoom.id x = r) rooms with
        | Some room => replace_or_push (change room) rooms
        | None => rooms
        end = f <$> rooms.
Proof.
  intros Hid Hf. destruct (find _ rooms) as [room|] eqn:Hroom; [|done].
  apply find_list_find in Hroom as [i Hi].
  assert (list_find (λ x, ChatRoom.id x = ChatRoom.id (change room)) rooms
          = Some (i, room)) as Hi'.
  { rewrite Hid. apply list_find_Some in Hi as (Hi & <- & Hlt).
    by apply list_find_Some. }
  rewrite (replace_or_push_found _ _ _ _ Hi'), list_fmap_insert, Hf.
  apply list_insert_id. apply list_find_Some in Hi as (Hi & _).
  by rewrite list_lookup_fmap, Hi.
Qed.

(** X12: the room edits change one field only: whether or not they find
    their room, they leave the number and the order of the rooms and
    every room's id, title, password and creation data as they were;
    [addMessage] leaves every room's memos, and [addMemo] and
    [deleteMemo] every room's messages. *)
Theorem room_edits_keep_the_rest r message memo memoId w :
  (meta <$> load (exec (addMessage r message) w) = meta <$> load w ∧
   ChatRoom.memos <$> load (exec (addMessage r message) w)
     = ChatRoom.memos <$> load w) ∧
  (meta <$> load (exec (addMemo r memo) w) = meta <$> load w ∧
   ChatRoom.messages <$> load (exec (addMemo r memo) w)
     = ChatRoom.messages <$> load w) ∧
  (meta <$> load (exec (deleteMemo r memoId) w) = meta <$> load w ∧
   ChatRoom.messages <$> load (exec (deleteMemo r memoId) w)
     = ChatRoom.messages <$> load w).
Proof.
  rewrite load_addMessage, load_addMemo, load_deleteMemo.
  split_and!.
  - by apply (fmap_after_edit meta r
      (λ x, ChatRoom.set_messages (ChatRoom.messages x ++ [message]) x)).
  - by apply (fmap_after_edit ChatRoom.memos r
      (λ x, ChatRoom.set_messages (ChatRoom.messages x ++ [message]) x)).
  - by apply (fmap_after_edit meta r
      (λ x, ChatRoom.set_memos (ChatRoom.memos x ++ [memo]) x)).
  - by apply (fmap_after_edit ChatRoom.messages r
      (λ x, ChatRoom.set_memos (ChatRoom.memos x ++ [memo]) x)).
  - by apply (fmap_after_edit meta r
      (λ x, ChatRoom.set_memos
              (filter (λ m, Memo.id m ≠ memoId) (ChatRoom.memos x)) x)).
  - by apply (fmap_after_edit ChatRoom.messages r
      (λ x, ChatRoom.set_memos
              (filter (λ m, Memo.id m ≠ memoId) (ChatRoom.memos x)) x)).
Qed.

(** ** Properties of the components *)

Local Abbreviation newest_first :=
  (λ a b : ChatRoom.t, ChatRoom.createdAt b - ChatRoom.createdAt a)%Z.
Local Abbreviation not_older :=
  (λ a b : ChatRoom.t, ChatRoom.createdAt b ≤ ChatRoom.createdAt a)%Z.

Lemma sort_insert_perm {A} (compare : A → A → Z) x l :
  sort_insert compare x l ≡ₚ x :: l.
Proof.
  induction l as [|y l IH]; simpl; [done|].
  case_bool_decide; [done|]. by rewrite IH, Permutation_swap.
Qed.

Lemma Array_sort_perm {A} (compare : A → A → Z) l :
  Array_sort compare l ≡ₚ l.
Proof.
  induction l as [|x l IH]; simpl; [done|].
  by rewrite sort_insert_perm, IH.
Qed.

Lemma sort_insert_sorted x l :
  StronglySorted not_older l →
  StronglySorted not_older (sort_insert newest_first x l).
Proof.
  induction 1 as [|y l Hl IH Hy]; simpl.
  - repeat constructor.
  - case_bool_decide as Hxy.
    + constructor; [by constructor|]. constructor; [lia|].
      eapply Forall_impl; [exact Hy|]. simpl. intros z ?. lia.
    + constructor; [done|].
      rewrite (sort_insert_perm newest_first x l). constructor; [lia|done].
Qed.

Lemma Array_sort_sorted l :
  StronglySorted not_older (Array_sort newest_first l).
Proof.
  induction l as [|x l IH]; simpl; [constructor|].
  by apply sort_insert_sorted.
Qed.

Lemma filter_sort_insert (P : ChatRoom.t → Prop) `{∀ x, Decision (P x)} x l :
  StronglySorted not_older l →
  filter P (sort_insert newest_first x l) =
  if decide (P x) then sort_insert newest_first x (filter P l)
  else filter P l.
Proof.
  induction 1 as [|y l Hl IH Hy]; simpl.
  - rewrite filter_cons, filter_nil. by destruct (decide (P x)).
  - case_bool_decide as Hxy.
    + rewrite (filter_cons _ x). destruct (decide (P x)); [|done].
      destruct (filter P (y :: l)) as [|z l'] eqn:Hf; [done|]. simpl.
      rewrite bool_decide_eq_true_2; [done|].
      assert (z ∈ y :: l) as Hz.
      { eapply (list_elem_of_filter P). rewrite Hf. left. }
      apply elem_of_cons in Hz as [->|Hz]; [done|].
      rewrite Forall_forall in Hy. specialize (Hy z Hz). simpl in Hy. lia.
    + rewrite !(filter_cons _ y), IH.
      destruct (decide (P y)), (decide (P x)); simpl; try done.
      by rewrite bool_decide_eq_false_2.
Qed.

Lemma filter_Array_sort (P : ChatRoom.t → Prop) `{∀ x, Decision (P x)} l :
  filter P (Array_sort newest_first l) = Array_sort newest_first (filter P l).
Proof.
  induction l as [|x l IH]; simpl; [done|].
  rewrite filter_sort_insert by apply Array_sort_sorted.
  rewrite filter_cons, IH. by destruct (decide (P x)).
Qed.

Lemma Array_sort_same_age t l :
  Forall (λ r, ChatRoom.createdAt r = t) l → Array_sort newest_first l = l.
Proof.
  induction 1 as [|x l Hx Hl IH]; simpl; [done|]. rewrite IH.
  destruct Hl as [|y l Hy Hl]; simpl; [done|].
  rewrite bool_decide_eq_true_2; [done|lia].
Qed.

Lemma loadRooms_run current w :
  loadRooms current w =
  (Normal
     (Array_sort newest_first (load w),
      match current with
      | Some room =>
          match find (λ r, ChatRoom.id r = ChatRoom.id room)
                  (Array_sort newest_first (load w)) with
          | Some updatedCurrent => Some updatedCurrent
          | None => current
          end
      | None => current
      end),
   after_getRooms w).
Proof. unfold loadRooms. by rewrite bind_getRooms. Qed.

(** X13: [loadRooms] shows the stored rooms newest first: the [rooms] it
    sets are the loaded rooms, each as often as it is stored, in the
    order of decreasing [createdAt], rooms of the same [createdAt] in
    their stored order; it writes nothing and notifies nobody. *)
Theorem loadRooms_newest_first current w :
  ∃ rooms current',
    outcome (loadRooms current) w = Normal (rooms, current') ∧
    rooms ≡ₚ load w ∧
    StronglySorted
      (λ a b, ChatRoom.createdAt b ≤ ChatRoom.createdAt a)%Z rooms ∧
    (∀ t, filter (λ r, ChatRoom.createdAt r = t) rooms =
          filter (λ r, ChatRoom.createdAt r = t) (load w)) ∧
    localStorage (exec (loadRooms current) w) = localStorage w ∧
    dispatched (exec (loadRooms current) w) = dispatched w.
Proof.
  unfold outcome, exec. rewrite loadRooms_run. simpl.
  eexists _, _. split; [done|]. split_and!.
  - apply Array_sort_perm.
  - apply Array_sort_sorted.
  - intros t. rewrite filter_Array_sort.
    apply (Array_sort_same_age t), Forall_forall.
    by intros r [? _]%list_elem_of_filter.
  - apply after_getRooms_localStorage.
  - apply after_getRooms_dispatched.
Qed.

Lemma find_id_perm r (l1 l2 : list ChatRoom.t) :
  l1 ≡ₚ l2 → NoDup (ChatRoom.id <$> l2) →
  find (λ x, ChatRoom.id x = r) l1 = find (λ x, ChatRoom.id x = r) l2.
Proof.
  intros Hperm Hnd.
  assert (NoDup (ChatRoom.id <$> l1)) as Hnd1 by by rewrite Hperm.
  assert (∀ l x y, NoDup (ChatRoom.id <$> l) → x ∈ l → y ∈ l →
            ChatRoom.id x = ChatRoom.id y → x = y) as Huniq.
  { intros l x y Hl (i & Hi)%list_elem_of_lookup (j & Hj)%list_elem_of_lookup Hxy.
    assert (i = j) as ->; [|congruence].
    eapply NoDup_lookup; [exact Hl|..];
      rewrite list_lookup_fmap; [by rewrite Hi|by rewrite Hj, Hxy]. }
  destruct (find _ l1) as [x|] eqn:H1, (find _ l2) as [y|] eqn:H2; [| | |done].
  - apply find_elem_of in H1 as [Hx1 Hidx], H2 as [Hy2 Hidy].
    f_equal. apply (Huniq l2); [done| |done|congruence]. by rewrite <-Hperm.
  - apply find_elem_of in H1 as [Hx1 Hidx].
    assert (is_Some (find (λ x, ChatRoom.id x = r) l2)) as [? ?]; [|congruence].
    apply find_id_is_Some. rewrite <-Hidx, <-Hperm. by apply list_elem_of_fmap_2.
  - apply find_elem_of in H2 as [Hy2 Hidy].
    assert (is_Some (find (λ x, ChatRoom.id x = r) l1)) as [? ?]; [|congruence].
    apply find_id_is_Some. rewrite <-Hidy, Hperm. by apply list_elem_of_fmap_2.
Qed.

(** X14: [loadRooms] and the room of the session: when a stored room has
    the id of the current room, the current room becomes a stored room
    with that id (the stored one, when the stored ids are distinct); when
    none has, as after the room was deleted, the current room is kept as
    it is, and is not cleared. *)
Theorem loadRooms_refreshes_current room w :
  ∃ rooms current',
    outcome (loadRooms (Some room)) w = Normal (rooms, current') ∧
    (ChatRoom.id room ∈ ChatRoom.id <$> load w →
     ∃ stored,
       current' = Some stored ∧ stored ∈ load w ∧
       ChatRoom.id stored = ChatRoom.id room ∧
       (ids_distinct w →
        find (λ r, ChatRoom.id r = ChatRoom.id room) (load w) = Some stored)) ∧
    (ChatRoom.id room ∉ ChatRoom.id <$> load w → current' = Some room).
Proof.
  unfold outcome. rewrite loadRooms_run. simpl.
  eexists _, _. split; [done|].
  pose proof (Array_sort_perm newest_first (load w)) as Hperm. split.
  - intros Hin.
    assert (ChatRoom.id room ∈
            ChatRoom.id <$> Array_sort newest_first (load w)) as Hin'
      by by rewrite Hperm.
    apply find_id_is_Some in Hin' as [stored Hstored]. rewrite Hstored.
    exists stored. destruct (find_elem_of _ _ _ Hstored) as [Hel Hid].
    split_and!; [done|by rewrite <-Hperm|done|].
    intros Hnd. by rewrite <-(find_id_perm _ _ _ Hperm Hnd).
  - intros Hout. rewrite find_id_None; [done|]. by rewrite Hperm.
Qed.

(** X15: [handleDeleteRoom] without the user's confirmation does nothing.
    With it, the room is deleted from the store, and filtering the list
    that is shown gives the list that a reload shows, whether the list
    was loaded before the deletion or by the storage listener after
    it. *)
Theorem handleDeleteRoom_agrees_with_reload roomId prev w :
  let deleted := exec (deleteRoom_strict roomId) w in
  handleDeleteRoom false roomId prev w = (Normal prev, w) ∧
  exec (handleDeleteRoom true roomId prev) w = deleted ∧
  (roomId ∉ ChatRoom.id <$> load deleted) ∧
  (prev = Array_sort newest_first (load w) ∨
   prev = Array_sort newest_first (load deleted) →
   outcome (handleDeleteRoom true roomId prev) w =
     Normal (Array_sort newest_first (load deleted))).
Proof.
  intros deleted. split; [done|].
  assert (handleDeleteRoom true roomId prev w =
          (Normal (filter (λ room, ChatRoom.id room ≠ roomId) prev), deleted))
    as Hrun.
  { unfold deleted, exec, handleDeleteRoom, mbind, JS_bind.
    rewrite deleteRoom_strict_eq.
    by destruct (deleteRoom_run roomId w) as [c ->]. }
  unfold outcome, exec at 1. rewrite Hrun. simpl.
  assert (load deleted = filter (λ room, ChatRoom.id room ≠ roomId) (load w))
    as Hload.
  { unfold deleted. rewrite deleteRoom_strict_eq. apply load_deleteRoom. }
  split_and!; [done| |].
  - rewrite Hload.
    intros (x & -> & [Hne _]%list_elem_of_filter)%list_elem_of_fmap.
    by apply Hne.
  - intros [->| ->]; f_equal; rewrite Hload, filter_Array_sort; [done|].
    f_equal. apply list_filter_filter_l. intros x Hx. exact Hx.
Qed.

(** The gate of [JoinRoomModal], for any [onJoin]. *)
Lemma JoinRoomModal_gate {P} room (onJoin : string → string → P → P)
    form (parent : P) :
  let nickname := JoinRoomModal.nickname form in
  let entered := JoinRoomModal.password form in
  let submitted := JoinRoomModal_handleSubmit room onJoin form parent in
  (String_trim nickname = "" → submitted = (form, parent)) ∧
  (String_trim nickname ≠ "" →
   ∀ stored, ChatRoom.password room = Some stored →
     stored ≠ "" → stored ≠ entered →
     submitted =
       (JoinRoomModal.mk nickname entered "Incorrect password", parent)) ∧
  (String_trim nickname ≠ "" →
   ChatRoom.password room = None ∨ ChatRoom.password room = Some "" ∨
   ChatRoom.password room = Some entered →
   submitted = (form, onJoin nickname entered parent)).
Proof.
  intros nickname entered submitted.
  unfold submitted, JoinRoomModal_handleSubmit, truthy_opt, nonempty.
  fold nickname entered. split_and!.
  - by intros ->.
  - intros Hnick stored Hpw Hstored Hne.
    rewrite (proj2 (String.eqb_neq _ _) Hnick), Hpw.
    rewrite (proj2 (String.eqb_neq _ _) Hstored). simpl.
    rewrite bool_decide_eq_true_2; [done|congruence].
  - intros Hnick Hpw. rewrite (proj2 (String.eqb_neq _ _) Hnick). simpl.
    destruct Hpw as [-> | [-> | ->]]; simpl; [done..|].
    rewrite bool_decide_eq_false_2 by (intros Hne; by apply Hne).
    by rewrite andb_false_r.
Qed.

(** X16: joining as a participant: outside admin mode, choosing a room
    opens the join dialog and starts no session.  Submitting the dialog
    with a blank nickname does nothing, not even an error; with a
    nickname, a room with a non-empty password rejects every other
    password with [Incorrect password] and starts no session; a room with
    no password, with the empty password, or with the password entered
    starts a session in that room with the nickname as typed and the role
    of participant, and closes the dialog. *)
Theorem participant_join room form app :
  App.isAdminMode app = false →
  let nickname := JoinRoomModal.nickname form in
  let entered := JoinRoomModal.password form in
  let chosen := handleJoinRoom room app in
  let submitted := JoinRoomModal_handleSubmit room confirmJoin form chosen in
  (App.joinModalRoom chosen = Some room ∧
   App.currentRoom chosen = App.currentRoom app ∧
   App.currentUser chosen = App.currentUser app) ∧
  (String_trim nickname = "" → submitted = (form, chosen)) ∧
  (String_trim nickname ≠ "" →
   ∀ stored, ChatRoom.password room = Some stored →
     stored ≠ "" → stored ≠ entered →
     submitted =
       (JoinRoomModal.mk nickname entered "Incorrect password", chosen)) ∧
  (String_trim nickname ≠ "" →
   ChatRoom.password room = None ∨ ChatRoom.password room = Some "" ∨
   ChatRoom.password room = Some entered →
   submitted =
     (form,
      App.mk (Some room) (Some (UserSession.mk nickname PARTICIPANT))
        (App.showCreateModal app) None (App.showAdminLogin app) false)).
Proof.
  intros Hadmin nickname entered chosen submitted.
  destruct (JoinRoomModal_gate room confirmJoin form chosen)
    as (Hblank & Hwrong & Hright).
  assert (chosen =
          App.mk (App.currentRoom app) (App.currentUser app)
            (App.showCreateModal app) (Some room)
            (App.showAdminLogin app) false) as Hchosen.
  { unfold chosen, handleJoinRoom. by rewrite Hadmin. }
  split_and!; [by rewrite Hchosen..|done|done|].
  intros Hnick Hpw. unfold submitted. fold nickname entered in Hright.
  rewrite (Hright Hnick Hpw). by rewrite Hchosen.
Qed.

(** X17: admin mode: the admin dialog turns it on for the PIN [331133]
    and for no other; in admin mode, choosing a room starts a session in
    it as [AI Bot] with the admin role at once, whatever the password of
    the room, and leaving the room keeps admin mode on. *)
Theorem admin_join_skips_password pin room app :
  let submitted :=
    AdminLoginModal_handleSubmit (AdminLoginModal.mk pin "") app in
  (pin ≠ "331133" →
   submitted = (AdminLoginModal.mk pin "Incorrect admin password", app)) ∧
  (pin = "331133" →
   let unlocked := submitted.2 in
   let joined := handleJoinRoom room unlocked in
   App.isAdminMode unlocked = true ∧
   App.showAdminLogin unlocked = false ∧
   App.currentRoom joined = Some room ∧
   App.currentUser joined = Some (UserSession.mk "AI Bot" ADMIN) ∧
   App.joinModalRoom joined = App.joinModalRoom app ∧
   handleExitRoom joined =
     App.mk None None (App.showCreateModal app) (App.joinModalRoom app)
       false true).
Proof.
  intros submitted. unfold submitted, AdminLoginModal_handleSubmit. simpl.
  split.
  - intros Hpin. by rewrite bool_decide_eq_false_2.
  - intros ->. by rewrite bool_decide_eq_true_2.
Qed.

(** X18: creating a room from the dialog: a blank title does nothing;
    otherwise the room is created with the title as typed and with the
    password typed when the password box is ticked (the empty one
    included) and none when it is not; the dialog is closed, the creator
    is in the new room as [AI Bot] with the admin role, and the room is
    stored. *)
Theorem create_room_from_dialog form now app w :
  match CreateRoomModal_handleSubmit form with
  | None => String_trim (CreateRoomModal.title form) = ""
  | Some (title, password) =>
      String_trim (CreateRoomModal.title form) ≠ "" ∧
      title = CreateRoomModal.title form ∧
      password = (if CreateRoomModal.hasPassword form
                  then Some (CreateRoomModal.password form) else None) ∧
      ∃ room,
        outcome (handleCreateRoom title password now app) w =
          Normal (App.mk (Some room) (Some (UserSession.mk "AI Bot" ADMIN))
                    false (App.joinModalRoom app) (App.showAdminLogin app)
                    (App.isAdminMode app)) ∧
        ChatRoom.title room = title ∧
        ChatRoom.password room = password ∧
        room ∈ load (exec (handleCreateRoom title password now app) w)
  end.
Proof.
  unfold CreateRoomModal_handleSubmit, nonempty.
  destruct (String.eqb_spec (String_trim (CreateRoomModal.title form)) "")
    as [Hblank|Hblank]; simpl; [done|].
  split_and!; [done..|].
  set (title := CreateRoomModal.title form).
  set (password := if CreateRoomModal.hasPassword form then _ else _).
  assert (handleCreateRoom title password now app w =
          (Normal (App.mk (Some (newRoom_index title password now))
                     (Some (UserSession.mk "AI Bot" ADMIN)) false
                     (App.joinModalRoom app) (App.showAdminLogin app)
                     (App.isAdminMode app)),
           exec (saveRoom (newRoom_index title password now)) w)) as Hrun.
  { unfold exec, handleCreateRoom, createRoom_index, mbind, JS_bind.
    by destruct (saveRoom_run (newRoom_index title password now) w) as [c ->]. }
  exists (newRoom_index title password now).
  unfold outcome, exec at 1. rewrite Hrun. simpl. split_and!; [done..|].
  rewrite load_saveRoom.
  pose proof (find_replace_or_push (newRoom_index title password now) (load w))
    as Hfind.
  by apply find_elem_of in Hfind as [? _].
Qed.

Lemma find_sorted_distinct r stored (rooms : list ChatRoom.t) :
  NoDup (ChatRoom.id <$> rooms) →
  find (λ x, ChatRoom.id x = r) rooms = Some stored →
  find (λ x, ChatRoom.id x = r) (Array_sort newest_first rooms) = Some stored.
Proof.
  intros Hnd <-. apply find_id_perm; [apply Array_sort_perm|done].
Qed.

(** X19: sending a message: with a non-blank input and the room still
    stored, [handleSendMessage] appends to the stored room (not to the
    copy the component was rendered with) one text message with the
    user's name and role and the input as typed, clears the input, and
    the reload shows the stored rooms; when the stored ids are distinct
    the current room becomes the stored room with the new message
    last. *)
Theorem handleSendMessage_sends random36 now room session st w :
  String_trim (ChatInterface.inputText st) ≠ "" →
  ChatRoom.id room ∈ ChatRoom.id <$> load w →
  let message :=
    Message.mk (generateId random36) (UserSession.username session)
      (UserSession.role session) (ChatInterface.inputText st) now type_text in
  let send :=
    handleSendMessage random36 now room session
      (handleRoomUpdate (Some room)) st in
  ∃ stored current',
    find (λ x, ChatRoom.id x = ChatRoom.id room) (load w) = Some stored ∧
    find (λ x, ChatRoom.id x = ChatRoom.id room) (load (exec send w)) =
      Some (ChatRoom.set_messages (ChatRoom.messages stored ++ [message])
              stored) ∧
    outcome send w =
      Normal (ChatInterface.mk "" (ChatInterface.showMemoInput st)
                (ChatInterface.newMemoTitle st)
                (ChatInterface.newMemoContent st),
              Some (Array_sort newest_first (load (exec send w)), current')) ∧
    (ids_distinct w →
     current' =
       Some (ChatRoom.set_messages (ChatRoom.messages stored ++ [message])
               stored)).
Proof.
  intros Hinput [stored Hstored]%find_id_is_Some message send.
  pose proof (edit_run _ _ _ w (addMessage_run (ChatRoom.id room) message w))
    as Hedit.
  rewrite Hstored in Hedit. destruct Hedit as (Hout & Hload & _).
  set (sent := ChatRoom.set_messages _ stored) in *.
  assert (find (λ x, ChatRoom.id x = ChatRoom.id room)
            (load (exec (addMessage (ChatRoom.id room) message) w))
          = Some sent) as Hsent.
  { rewrite Hload.
    by apply (find_after_edit (ChatRoom.id room)
      (λ x, ChatRoom.set_messages (ChatRoom.messages x ++ [message]) x)). }
  assert (send w =
          (x ← loadRooms (Some room);
           mret (ChatInterface.mk "" (ChatInterface.showMemoInput st)
                   (ChatInterface.newMemoTitle st)
                   (ChatInterface.newMemoContent st), Some x))
            (exec (addMessage (ChatRoom.id room) message) w)) as Hrun.
  { unfold send, handleSendMessage, nonempty.
    rewrite (proj2 (String.eqb_neq _ _) Hinput). simpl.
    fold message. unfold outcome, exec, mbind, JS_bind, handleRoomUpdate in *.
    destruct (addMessage (ChatRoom.id room) message w) as [[[]|e] w1];
      by simplify_eq/=. }
  unfold outcome, exec at 1 2. rewrite Hrun.
  unfold mbind, JS_bind. rewrite loadRooms_run. simpl.
  rewrite load_after_getRooms.
  eexists stored, _. split_and!; [done|done|done|].
  intros Hnd.
  rewrite (find_sorted_distinct (ChatRoom.id room) sent); [done| |done].
  rewrite Hload. by apply NoDup_ids_replace_or_push.
Qed.

(** X20: what [handleSendMessage] does not do: with a blank input it does
    nothing at all and does not call [onUpdateRoom]; with an input but
    the room no longer stored, nothing is written and nobody is notified,
    yet the input is cleared and the session keeps the room it had: the
    message is lost without an error. *)
Theorem handleSendMessage_nothing_stored {P} random36 now room session
    (onUpdateRoom : JS P) st w :
  (String_trim (ChatInterface.inputText st) = "" →
   handleSendMessage random36 now room session onUpdateRoom st w =
     (Normal (st, None), w)) ∧
  (String_trim (ChatInterface.inputText st) ≠ "" →
   ChatRoom.id room ∉ ChatRoom.id <$> load w →
   let send :=
     handleSendMessage random36 now room session
       (handleRoomUpdate (Some room)) st in
   outcome send w =
     Normal (ChatInterface.mk "" (ChatInterface.showMemoInput st)
               (ChatInterface.newMemoTitle st)
               (ChatInterface.newMemoContent st),
             Some (Array_sort newest_first (load w), Some room)) ∧
   localStorage (exec send w) = localStorage w ∧
   dispatched (exec send w) = dispatched w).
Proof.
  unfold handleSendMessage, nonempty. split.
  - by intros ->.
  - intros Hinput Hgone. rewrite (proj2 (String.eqb_neq _ _) Hinput). simpl.
    set (message := Message.mk _ _ _ _ _ _).
    pose proof (edit_run _ _ _ w (addMessage_run (ChatRoom.id room) message w))
      as Hedit.
    rewrite (find_id_None _ _ Hgone) in Hedit.
    destruct Hedit as (Hout & Hload & Hls & Hev).
    unfold outcome, exec, mbind, JS_bind, handleRoomUpdate in *.
    destruct (addMessage (ChatRoom.id room) message w) as [[[]|e] w1];
      simplify_eq/=.
    rewrite loadRooms_run. simpl.
    rewrite Hload, after_getRooms_localStorage, after_getRooms_dispatched.
    split_and!; [|done..].
    rewrite find_id_None; [done|].
    by rewrite (Array_sort_perm newest_first (load w)).
Qed.

(** X21: adding a plan: [handleAddMemo] does nothing unless both the title
    and the content are non-blank; then, the room still stored, it
    appends to the stored room a memo with the title and the content as
    typed, and clears and closes the form. *)
Theorem handleAddMemo_validates_and_appends random36 now room st w :
  let memo :=
    Memo.mk (generateId random36) (ChatInterface.newMemoTitle st)
      (ChatInterface.newMemoContent st) now in
  let add :=
    handleAddMemo random36 now room (handleRoomUpdate (Some room)) st in
  (String_trim (ChatInterface.newMemoTitle st) = "" ∨
   String_trim (ChatInterface.newMemoContent st) = "" →
   add w = (Normal (st, None), w)) ∧
  (String_trim (ChatInterface.newMemoTitle st) ≠ "" →
   String_trim (ChatInterface.newMemoContent st) ≠ "" →
   ChatRoom.id room ∈ ChatRoom.id <$> load w →
   ∃ stored updated,
     find (λ x, ChatRoom.id x = ChatRoom.id room) (load w) = Some stored ∧
     find (λ x, ChatRoom.id x = ChatRoom.id room) (load (exec add w)) =
       Some (ChatRoom.set_memos (ChatRoom.memos stored ++ [memo]) stored) ∧
     outcome add w =
       Normal (ChatInterface.mk (ChatInterface.inputText st) false "" "",
               Some updated)).
Proof.
  intros memo add. unfold add, handleAddMemo, nonempty. split.
  - intros [-> | ->]; simpl; [done|]. by rewrite orb_true_r.
  - intros Htitle Hcontent [stored Hstored]%find_id_is_Some.
    rewrite (proj2 (String.eqb_neq _ _) Htitle),
      (proj2 (String.eqb_neq _ _) Hcontent). simpl. fold memo.
    pose proof (edit_run _ _ _ w (addMemo_run (ChatRoom.id room) memo w))
      as Hedit.
    rewrite Hstored in Hedit. destruct Hedit as (Hout & Hload & _).
    unfold outcome, exec, mbind, JS_bind, handleRoomUpdate in *.
    destruct (addMemo (ChatRoom.id room) memo w) as [[[]|e] w1];
      simplify_eq/=.
    rewrite loadRooms_run. simpl. rewrite load_after_getRooms, Hload.
    eexists stored, _. split_and!; [done| |done].
    by apply (find_after_edit (ChatRoom.id room)
      (λ x, ChatRoom.set_memos (ChatRoom.memos x ++ [memo]) x)).
Qed.

Lemma string_app_assoc (a b c : string) : (a +:+ b) +:+ c = a +:+ b +:+ c.
Proof.
  induction a as [|x a IH]; [done|].
  change (String x ((a +:+ b) +:+ c) = String x (a +:+ b +:+ c)).
  by rewrite IH.
Qed.

Lemma Array_join_snoc separator l x :
  l ≠ [] →
  Array_join separator (l ++ [x]) =
  Array_join separator l +:+ separator +:+ x.
Proof.
  induction l as [|y l IH]; [done|]. intros _.
  destruct l as [|z l]; [done|].
  change (y +:+ separator +:+ Array_join separator ((z :: l) ++ [x]) =
          (y +:+ separator +:+ Array_join separator (z :: l))
            +:+ separator +:+ x).
  rewrite IH by done. by rewrite !string_app_assoc.
Qed.

(** X22: the export follows the order of the messages: a room without
    messages exports the empty text; one message exports its line, the
    time of the message in the host's local form between square
    brackets, a space, the sender, a colon and a space, and the text;
    appending a message to a room that has some extends the export by a
    line break and the line of that message. *)
Theorem export_follows_append_order room ms m :
  exportContent (ChatRoom.set_messages [] room) = "" ∧
  exportContent (ChatRoom.set_messages [m] room) =
    "[" +:+ Date_toLocaleString (Message.timestamp m) +:+ "] " +:+
    Message.senderName m +:+ ": " +:+ Message.text m ∧
  (ms ≠ [] →
   exportContent (ChatRoom.set_messages (ms ++ [m]) room) =
   exportContent (ChatRoom.set_messages ms room) +:+ String "010" "" +:+
   "[" +:+ Date_toLocaleString (Message.timestamp m) +:+ "] " +:+
   Message.senderName m +:+ ": " +:+ Message.text m).
Proof.
  unfold exportContent. simpl. split_and!; [done..|].
  intros Hms. rewrite fmap_app. simpl. apply Array_join_snoc.
  by destruct ms.
Qed.

Lemma lookup_after_edit r (change : ChatRoom.t → ChatRoom.t) rooms k :
  (∀ x, ChatRoom.id (change x) = ChatRoom.id x) →
  match find (λ x, ChatRoom.id x = r) rooms with
  | Some room => replace_or_push (change room) rooms
  | None => rooms
  end !! k =
  (if decide (fst <$> list_find (λ x, ChatRoom.id x = r) rooms = Some k)
   then change else id) <$> rooms !! k.
Proof.
  intros Hid. unfold find.
  destruct (list_find _ rooms) as [[i room]|] eqn:Hi;
    cbn [fmap option_fmap option_map fst snd].
  - assert (list_find (λ x, ChatRoom.id x = ChatRoom.id (change room)) rooms
            = Some (i, room)) as Hi'.
    { rewrite Hid. apply list_find_Some in Hi as (Hi & <- & Hlt).
      by apply list_find_Some. }
    rewrite (replace_or_push_found _ _ _ _ Hi').
    apply list_find_Some in Hi as (Hi & _).
    case_decide as Hk.
    + injection Hk as ->.
      rewrite list_lookup_insert_eq by (by eapply lookup_lt_Some).
      by rewrite Hi.
    + rewrite list_lookup_insert_ne by congruence. by destruct (rooms !! k).
  - case_decide; [done|]. by destruct (rooms !! k).
Qed.

Lemma index_after_edit r r' (change : ChatRoom.t → ChatRoom.t) rooms :
  (∀ x, ChatRoom.id (change x) = ChatRoom.id x) →
  fst <$> list_find (λ x, ChatRoom.id x = r')
            match find (λ x, ChatRoom.id x = r) rooms with
            | Some room => replace_or_push (change room) rooms
            | None => rooms
            end =
  fst <$> list_find (λ x, ChatRoom.id x = r') rooms.
Proof.
  intros Hid.
  assert (∀ l : list ChatRoom.t,
            fst <$> list_find (λ x, ChatRoom.id x = r') l =
            fst <$> list_find (λ y, y = r') (ChatRoom.id <$> l)) as Hids.
  { intros l. rewrite list_find_fmap.
    by destruct (list_find _ l) as [[??]|]. }
  rewrite !Hids. f_equal. f_equal.
  by apply (fmap_after_edit ChatRoom.id r change).
Qed.

(** X23: [addMessage] and [addMemo] do not undo each other: in either
    order, on the same room or on two rooms, they leave the same loaded
    collection. *)
Theorem addMessage_addMemo_commute r1 message r2 memo w :
  load (exec (addMemo r2 memo) (exec (addMessage r1 message) w)) =
  load (exec (addMessage r1 message) (exec (addMemo r2 memo) w)).
Proof.
  rewrite !load_addMemo, !load_addMessage, !load_addMemo.
  apply list_eq. intros k.
  rewrite !lookup_after_edit by done.
  rewrite !index_after_edit by done.
  destruct (load w !! k) as [room|]; simpl; [|done].
  repeat case_decide; simpl; try done.
Qed.

End StorageService.

(** ** Typing status *)

Lemma sanitize_filter unsafe username :
  String.list_ascii_of_string (Typing.sanitize unsafe username) =
  filter (λ c, unsafe c = false) (String.list_ascii_of_string username).
Proof.
  induction username as [|c rest IH]; [done|]. simpl.
  rewrite filter_cons. destruct (unsafe c) eqn:Hc.
  - by rewrite decide_False.
  - rewrite decide_True by done. simpl. by rewrite IH.
Qed.

(** C4: [setTypingStatus roomId username isTyping] upserts [isTyping]
    under the sanitized key, the username without its unsafe characters,
    in the typing map of the room with that id, and leaves the other keys
    and the other rooms alone; when no room has the id it changes
    nothing. *)
Theorem setTypingStatus_upserts unsafe rooms roomId username isTyping :
  let key := Typing.sanitize unsafe username in
  let rooms' := Typing.setTypingStatus unsafe roomId username isTyping rooms in
  String.list_ascii_of_string key =
    filter (λ c, unsafe c = false) (String.list_ascii_of_string username) ∧
  (roomId ∈ ChatRoom.id ∘ Typing.room <$> rooms →
   ∃ i r r',
     list_find (λ x, ChatRoom.id (Typing.room x) = roomId) rooms = Some (i, r) ∧
     rooms' = <[i := r']> rooms ∧
     Typing.room r' = Typing.room r ∧
     Typing.typing r' !! key = Some isTyping ∧
     (∀ k, k ≠ key → Typing.typing r' !! k = Typing.typing r !! k)) ∧
  (roomId ∉ ChatRoom.id ∘ Typing.room <$> rooms → rooms' = rooms).
Proof.
  intros key rooms'. split; [apply sanitize_filter|].
  unfold rooms', Typing.setTypingStatus. split.
  - intros (x & Hid & Hx)%list_elem_of_fmap.
    destruct (list_find_elem_of
                (λ y, ChatRoom.id (Typing.room y) = roomId) rooms x)
      as [[i r] Hfind]; [done..|].
    rewrite Hfind. eexists i, r, _. split_and!; [done..| |].
    + apply lookup_insert_eq.
    + intros k Hk. by apply lookup_insert_ne.
  - intros Habsent.
    destruct (list_find _ rooms) as [[i r]|] eqn:Hfind; [|done].
    apply list_find_Some in Hfind as (Hi & Hid & _).
    destruct Habsent. rewrite <-Hid.
    apply (list_elem_of_fmap_2 (ChatRoom.id ∘ Typing.room)).
    by eapply list_elem_of_lookup_2.
Qed.

(** ** Worked examples *)

Example dateText_2_november_2026 : dateText no_crypto = "2026년 11월 2일".
Proof. vm_compute. reflexivity. Qed.

Example uniqueId_fallback : uniqueId no_crypto = "room_1793660000000_4fzyo82".
Proof. vm_compute. reflexivity. Qed.

Lemma getRooms_fails_soft_witness :
  outcome (getRooms sample_JSON_parse) (world_with (Some (Raw "{oops"))) = Normal [] ∧
  outcome (getRooms sample_JSON_parse) (world_with (Some (Raw ""))) = Normal [] ∧
  outcome (getRooms sample_JSON_parse) (world_with None) = Normal [].
Proof.
  split_and!.
  - destruct (getRooms_fails_soft sample_JSON_parse
                (world_with (Some (Raw "{oops")))) as (_ & _ & _ & Hbad).
    apply (Hbad "{oops" (SyntaxError "Unexpected token")); reflexivity.
  - destruct (getRooms_fails_soft sample_JSON_parse
                (world_with (Some (Raw "")))) as (_ & _ & Hempty & _).
    apply Hempty. reflexivity.
  - destruct (getRooms_fails_soft sample_JSON_parse (world_with None))
      as (_ & Habsent & _).
    apply Habsent. reflexivity.
Defined.

Lemma addMessage_appends_witness :
  "r1" ∈ ChatRoom.id <$> load sample_JSON_parse two_rooms ∧
  ∃ room room',
    find (λ x, ChatRoom.id x = "r1") (load sample_JSON_parse two_rooms)
      = Some room ∧
    outcome (addMessage sample_JSON_parse "r1" hi) two_rooms = Normal tt ∧
    find (λ x, ChatRoom.id x = "r1")
      (load sample_JSON_parse
         (exec (addMessage sample_JSON_parse "r1" hi) two_rooms))
      = Some room' ∧
    room' = ChatRoom.set_messages (ChatRoom.messages room ++ [hi]) room ∧
    ChatRoom.messages room' = ChatRoom.messages room ++ [hi] ∧
    last (ChatRoom.messages room') = Some hi ∧
    take (length (ChatRoom.messages room)) (ChatRoom.messages room')
      = ChatRoom.messages room.
Proof.
  assert ("r1" ∈ ChatRoom.id <$> load sample_JSON_parse two_rooms) as Hin.
  { vm_compute. left. }
  split; [exact Hin|].
  exact (addMessage_appends sample_JSON_parse two_rooms "r1" hi Hin).
Defined.

Example addMessage_appends_example :
  load sample_JSON_parse
    (exec (addMessage sample_JSON_parse "r1" hi) two_rooms) =
  [(ChatRoom.set_messages [hello; hi] standup); secret].
Proof. vm_compute. reflexivity. Qed.

Lemma missing_room_is_noop_witness :
  ("r9" ∉ ChatRoom.id <$> load sample_JSON_parse two_rooms) ∧
  silent_noop (addMessage sample_JSON_parse "r9" hi) two_rooms ∧
  silent_noop (addMemo sample_JSON_parse "r9" plan_a) two_rooms ∧
  silent_noop (deleteMemo sample_JSON_parse "r9" "p1") two_rooms.
Proof.
  assert ("r9" ∉ ChatRoom.id <$> load sample_JSON_parse two_rooms) as Hout.
  { apply (bool_decide_unpack _). vm_compute. exact I. }
  split; [exact Hout|].
  exact (missing_room_is_noop sample_JSON_parse two_rooms "r9" hi plan_a "p1" Hout).
Defined.

Lemma ids_distinct_invariant_witness :
  ids_distinct sample_JSON_parse two_rooms ∧
  ids_distinct sample_JSON_parse
    (exec (call sample_JSON_parse (SaveRoom standup)) two_rooms).
Proof.
  assert (ids_distinct sample_JSON_parse two_rooms) as Hnd.
  { apply (bool_decide_unpack _). vm_compute. exact I. }
  split; [exact Hnd|].
  exact (ids_distinct_invariant sample_JSON_parse (SaveRoom standup) two_rooms Hnd).
Defined.

Lemma other_rooms_unchanged_witness :
  targets (DeleteMemo "r1" "p1") "r1" ∧
  filter (λ x, ChatRoom.id x ≠ "r1")
    (load sample_JSON_parse
       (exec (call sample_JSON_parse (DeleteMemo "r1" "p1")) two_rooms)) =
  filter (λ x, ChatRoom.id x ≠ "r1") (load sample_JSON_parse two_rooms).
Proof.
  assert (targets (DeleteMemo "r1" "p1") "r1") as Ht by reflexivity.
  split; [exact Ht|].
  exact (other_rooms_unchanged sample_JSON_parse (DeleteMemo "r1" "p1") "r1"
           two_rooms Ht).
Defined.

Example deleteMemo_example :
  load sample_JSON_parse
    (exec (deleteMemo sample_JSON_parse "r1" "p1") two_rooms) =
  [(ChatRoom.set_memos [plan_b] standup); secret].
Proof. vm_compute. reflexivity. Qed.

Example deleteRoom_example :
  load sample_JSON_parse (exec (deleteRoom sample_JSON_parse "r1") two_rooms)
  = [secret].
Proof. vm_compute. reflexivity. Qed.

Example createRoom_on_corrupt_store_example :
  load sample_JSON_parse
    (exec (createRoom sample_JSON_parse "Standup" None no_crypto)
       (world_with (Some (Raw "{oops")))) =
  [newRoom "Standup" None no_crypto].
Proof. vm_compute. reflexivity. Qed.

(** C5, as stated, fails: two calls in the same millisecond whose random
    numbers agree on their first seven base-36 digits return rooms with
    the same id. *)
Lemma createRoom_ids_collide :
  ∃ rooms,
    outcome
      (createRooms sample_JSON_parse
         [("Standup", None, no_crypto); ("Retro", None, no_crypto_again)])
      (world_with None) = Normal rooms ∧
    ¬ NoDup (ChatRoom.id <$> rooms).
Proof.
  eexists. split; [vm_compute; reflexivity|].
  intros [Hnotin _]%NoDup_cons. apply Hnotin. vm_compute. left.
Qed.

(** The second room then replaces the first in the stored document. *)
Example createRoom_collision_overwrites :
  load sample_JSON_parse
    (exec
       (createRooms sample_JSON_parse
          [("Standup", None, no_crypto); ("Retro", None, no_crypto_again)])
       (world_with None)) =
  [newRoom "Retro" None no_crypto_again].
Proof. vm_compute. reflexivity. Qed.

Lemma createRooms_ids_distinct_witness :
  let calls :=
    [("Standup", None, no_crypto);
     ("Retro", Some "xyz", with_crypto "3f2c9a1e-0000-4000-8000-000000000001");
     ("Demo", None, no_crypto_later);
     ("Sync", None, with_crypto "3f2c9a1e-0000-4000-8000-000000000002")] in
  uuids_well_formed (snd <$> calls) ∧
  NoDup (id_source ∘ snd <$> calls) ∧
  ∃ rooms,
    outcome (createRooms sample_JSON_parse calls) two_rooms = Normal rooms ∧
    ChatRoom.id <$> rooms =
      ["room_1793660000000_4fzyo82";
       "3f2c9a1e-0000-4000-8000-000000000001";
       "room_1793660000001_4fzyo82";
       "3f2c9a1e-0000-4000-8000-000000000002"] ∧
    NoDup (ChatRoom.id <$> rooms).
Proof.
  intros calls.
  assert (uuids_well_formed (snd <$> calls)) as Hformed.
  { repeat constructor; simpl; intros uuid [= <-]; reflexivity. }
  assert (NoDup (id_source ∘ snd <$> calls)) as Hnd.
  { apply NoDup_ListNoDup. vm_compute.
    repeat (constructor; [simpl; intuition discriminate|]). constructor. }
  split_and!; [exact Hformed|exact Hnd|].
  destruct (createRooms_ids_distinct sample_JSON_parse calls two_rooms
              Hformed Hnd) as (rooms & Hout & Hids & Hdistinct).
  exists rooms. split_and!; [exact Hout| |exact Hdistinct].
  rewrite Hids. vm_compute. reflexivity.
Defined.

(** The chat component replaces an unsafe character by an underscore where
    the sanitized key drops it. *)
Example own_key_replaces :
  Typing.own_key "A.n[a]" = "A_n_a_" ∧
  Typing.sanitize Typing.key_unsafe "A.n[a]" = "Ana".
Proof. split; reflexivity. Qed.

Lemma setTypingStatus_upserts_witness :
  "r1" ∈ ChatRoom.id ∘ Typing.room <$> sample_typing ∧
  ("r9" ∉ ChatRoom.id ∘ Typing.room <$> sample_typing) ∧
  Typing.sanitize Typing.key_unsafe "A.n[a]" = "Ana" ∧
  (∃ r', Typing.setTypingStatus Typing.key_unsafe "r1" "A.n[a]" true sample_typing
         = <[0 := r']> sample_typing ∧
         Typing.typing r' !! "Ana" = Some true ∧
         Typing.typing r' !! "Bo" = Some true) ∧
  Typing.setTypingStatus Typing.key_unsafe "r9" "A.n[a]" true sample_typing
    = sample_typing.
Proof.
  assert ("r1" ∈ ChatRoom.id ∘ Typing.room <$> sample_typing) as Hin.
  { apply (bool_decide_unpack _). vm_compute. exact I. }
  assert ("r9" ∉ ChatRoom.id ∘ Typing.room <$> sample_typing) as Hout.
  { apply (bool_decide_unpack _). vm_compute. exact I. }
  destruct (setTypingStatus_upserts Typing.key_unsafe sample_typing "r1"
              "A.n[a]" true) as (_ & Hfound & _).
  destruct (setTypingStatus_upserts Typing.key_unsafe sample_typing "r9"
              "A.n[a]" true) as (_ & _ & Habsent).
  split_and!; [exact Hin|exact Hout|reflexivity| |exact (Habsent Hout)].
  destruct (Hfound Hin) as (i & r & r' & Hfind & Heq & _ & Hkey & Hother).
  injection Hfind as <- <-.
  exists r'. split_and!; [exact Heq|exact Hkey|].
  rewrite Hother; [reflexivity|discriminate].
Defined.

Lemma deleteRoom_then_load_witness :
  "r1" ∉ ChatRoom.id <$>
    load sample_JSON_parse (exec (deleteRoom sample_JSON_parse "r1") two_rooms).
Proof. exact (proj2 (proj2 (deleteRoom_then_load sample_JSON_parse two_rooms "r1"))). Defined.

Lemma createRoom_seeds_and_persists_witness :
  ∃ room banner,
    outcome (createRoom sample_JSON_parse "Standup" None no_crypto) two_rooms
      = Normal room ∧
    ChatRoom.title room = "Standup" ∧
    ChatRoom.password room = None ∧
    ChatRoom.messages room = [banner] ∧
    Message.type banner = type_system ∧
    Message.text banner = "2026년 11월 2일" ∧
    ChatRoom.memos room = [] ∧
    ChatRoom.createdBy room = "AI Bot" ∧
    room ∈ load sample_JSON_parse
      (exec (createRoom sample_JSON_parse "Standup" None no_crypto) two_rooms).
Proof.
  destruct (createRoom_seeds_and_persists sample_JSON_parse "Standup" None
              no_crypto two_rooms)
    as (room & banner & Hout & Htitle & Hpassword & Hmessages & Htype & _ & _
        & Htext & _ & Hmemos & _ & Hby & Hstored).
  exists room, banner.
  split_and!; [exact Hout|exact Htitle|exact Hpassword|exact Hmessages
              |exact Htype| |exact Hmemos|exact Hby|exact Hstored].
  rewrite Htext. vm_compute. reflexivity.
Defined.

Lemma deleteMemo_idempotent_witness :
  load sample_JSON_parse
    (exec (deleteMemo sample_JSON_parse "r1" "p1")
       (exec (deleteMemo sample_JSON_parse "r1" "p1") two_rooms)) =
  load sample_JSON_parse
    (exec (deleteMemo sample_JSON_parse "r1" "p1") two_rooms).
Proof.
  exact (proj1 (proj2 (deleteMemo_idempotent sample_JSON_parse two_rooms "r1" "p1"))).
Defined.

(** ** Worked examples of the further properties *)

Lemma saveRoom_position_witness :
  ChatRoom.id standup ∈ ChatRoom.id <$> load sample_JSON_parse two_rooms ∧
  (ChatRoom.id retro ∉ ChatRoom.id <$> load sample_JSON_parse two_rooms) ∧
  length (load sample_JSON_parse
            (exec (saveRoom sample_JSON_parse standup) two_rooms)) = 2 ∧
  load sample_JSON_parse (exec (saveRoom sample_JSON_parse retro) two_rooms)
    = [standup; secret; retro].
Proof.
  assert (ChatRoom.id standup ∈
          ChatRoom.id <$> load sample_JSON_parse two_rooms) as Hin.
  { apply (bool_decide_unpack _). vm_compute. exact I. }
  assert (ChatRoom.id retro ∉
          ChatRoom.id <$> load sample_JSON_parse two_rooms) as Hout.
  { apply (bool_decide_unpack _). vm_compute. exact I. }
  split_and!; [exact Hin|exact Hout|..].
  - destruct (saveRoom_position sample_JSON_parse standup two_rooms)
      as [Hreplace _].
    destruct (Hreplace Hin) as (i & old & _ & _ & Hlen & _). exact Hlen.
  - destruct (saveRoom_position sample_JSON_parse retro two_rooms)
      as [_ Hpush].
    exact (Hpush Hout).
Defined.

Lemma first_write_replaces_unreadable_text_witness :
  document unreadable = Some (Raw "{oops") ∧
  sample_JSON_parse "{oops" = Throw (SyntaxError "Unexpected token") ∧
  document (exec (saveRoom sample_JSON_parse standup) unreadable)
    = Some (JSON_stringify [standup]) ∧
  document (exec (deleteRoom sample_JSON_parse "r1") unreadable)
    = Some (JSON_stringify []) ∧
  document (exec (addMessage sample_JSON_parse "r1" hi) unreadable)
    = Some (Raw "{oops").
Proof.
  assert (document unreadable = Some (Raw "{oops")) as Hdoc by reflexivity.
  assert (sample_JSON_parse "{oops" = Throw (SyntaxError "Unexpected token"))
    as Hparse by reflexivity.
  split_and!; [exact Hdoc|exact Hparse|..];
    apply (first_write_replaces_unreadable_text sample_JSON_parse "{oops"
             (SyntaxError "Unexpected token") standup "r1" hi unreadable
             Hdoc Hparse).
Defined.

Lemma deleteRoom_absent_idempotent_commutes_witness :
  ("r9" ∉ ChatRoom.id <$> load sample_JSON_parse two_rooms) ∧
  load sample_JSON_parse (exec (deleteRoom sample_JSON_parse "r9") two_rooms)
    = load sample_JSON_parse two_rooms.
Proof.
  assert ("r9" ∉ ChatRoom.id <$> load sample_JSON_parse two_rooms) as Hout.
  { apply (bool_decide_unpack _). vm_compute. exact I. }
  split; [exact Hout|].
  exact (proj1 (deleteRoom_absent_idempotent_commutes sample_JSON_parse
                  "r9" "r1" two_rooms) Hout).
Defined.

Lemma createRoom_fresh_appends_witness :
  (uniqueId no_crypto ∉ ChatRoom.id <$> load sample_JSON_parse two_rooms) ∧
  load sample_JSON_parse
    (exec (createRoom sample_JSON_parse "Retro" None no_crypto) two_rooms)
    = load sample_JSON_parse two_rooms ++ [newRoom "Retro" None no_crypto] ∧
  load sample_JSON_parse
    (exec (deleteRoom sample_JSON_parse (uniqueId no_crypto))
       (exec (createRoom sample_JSON_parse "Retro" None no_crypto) two_rooms))
    = load sample_JSON_parse two_rooms.
Proof.
  assert (uniqueId no_crypto ∉
          ChatRoom.id <$> load sample_JSON_parse two_rooms) as Hfresh.
  { apply (bool_decide_unpack _). vm_compute. exact I. }
  split; [exact Hfresh|].
  exact (createRoom_fresh_appends sample_JSON_parse "Retro" None no_crypto
           two_rooms Hfresh).
Defined.

Lemma createRoom_taken_id_replaces_witness :
  uniqueId no_crypto ∈ ChatRoom.id <$> load sample_JSON_parse with_taken_id ∧
  load sample_JSON_parse
    (exec (createRoom sample_JSON_parse "Retro" None no_crypto) with_taken_id)
    = [newRoom "Retro" None no_crypto].
Proof.
  assert (uniqueId no_crypto ∈
          ChatRoom.id <$> load sample_JSON_parse with_taken_id) as Htaken.
  { apply (bool_decide_unpack _). vm_compute. exact I. }
  split; [exact Htaken|].
  destruct (createRoom_taken_id_replaces sample_JSON_parse "Retro" None
              no_crypto with_taken_id Htaken) as (i & old & Hfind & -> & _).
  vm_compute in Hfind. injection Hfind as <- _. reflexivity.
Defined.

Lemma addMemo_appends_witness :
  "r2" ∈ ChatRoom.id <$> load sample_JSON_parse two_rooms ∧
  find (λ x, ChatRoom.id x = "r2")
    (load sample_JSON_parse
       (exec (addMemo sample_JSON_parse "r2" plan_a) two_rooms))
    = Some (ChatRoom.set_memos [plan_a] secret).
Proof.
  assert ("r2" ∈ ChatRoom.id <$> load sample_JSON_parse two_rooms) as Hin.
  { apply (bool_decide_unpack _). vm_compute. exact I. }
  split; [exact Hin|].
  destruct (addMemo_appends sample_JSON_parse two_rooms "r2" plan_a Hin)
    as (room & room' & Hroom & -> & -> & _).
  vm_compute in Hroom. injection Hroom as <-. reflexivity.
Defined.

Lemma deleteMemo_removes_exactly_witness :
  "r1" ∈ ChatRoom.id <$> load sample_JSON_parse two_rooms ∧
  ∃ room',
    find (λ x, ChatRoom.id x = "r1")
      (load sample_JSON_parse
         (exec (deleteMemo sample_JSON_parse "r1" "p1") two_rooms))
      = Some room' ∧
    ChatRoom.memos room' = [plan_b].
Proof.
  assert ("r1" ∈ ChatRoom.id <$> load sample_JSON_parse two_rooms) as Hin.
  { apply (bool_decide_unpack _). vm_compute. exact I. }
  split; [exact Hin|].
  destruct (deleteMemo_removes_exactly sample_JSON_parse two_rooms "r1" "p1"
              Hin) as (room & room' & Hroom & Hroom' & _ & Hfilter & _).
  exists room'. split; [exact Hroom'|].
  vm_compute in Hroom. injection Hroom as <-. rewrite <-Hfilter. reflexivity.
Defined.

Lemma addMessages_appends_in_order_witness :
  "r2" ∈ ChatRoom.id <$> load sample_JSON_parse two_rooms ∧
  find (λ x, ChatRoom.id x = "r2")
    (load sample_JSON_parse
       (exec (addMessages sample_JSON_parse "r2" [hello; hi]) two_rooms))
    = Some (ChatRoom.set_messages [hello; hi] secret).
Proof.
  assert ("r2" ∈ ChatRoom.id <$> load sample_JSON_parse two_rooms) as Hin.
  { apply (bool_decide_unpack _). vm_compute. exact I. }
  split; [exact Hin|].
  destruct (addMessages_appends_in_order sample_JSON_parse two_rooms "r2"
              [hello; hi] Hin) as (room & Hroom & _ & ->).
  vm_compute in Hroom. injection Hroom as <-. reflexivity.
Defined.

Lemma loadRooms_refreshes_current_witness :
  (ChatRoom.id retro ∉ ChatRoom.id <$> load sample_JSON_parse two_rooms) ∧
  ∃ rooms,
    outcome (loadRooms sample_JSON_parse (Some retro)) two_rooms
      = Normal (rooms, Some retro).
Proof.
  assert (ChatRoom.id retro ∉
          ChatRoom.id <$> load sample_JSON_parse two_rooms) as Hgone.
  { apply (bool_decide_unpack _). vm_compute. exact I. }
  split; [exact Hgone|].
  destruct (loadRooms_refreshes_current sample_JSON_parse retro two_rooms)
    as (rooms & current' & Hout & _ & Hkept).
  exists rooms. rewrite Hout, (Hkept Hgone). reflexivity.
Defined.

Example loadRooms_example :
  outcome (loadRooms sample_JSON_parse (Some (ChatRoom.set_messages [] standup)))
    two_rooms
  = Normal ([secret; standup], Some standup).
Proof. vm_compute. reflexivity. Qed.

Lemma handleDeleteRoom_agrees_with_reload_witness :
  outcome
    (handleDeleteRoom sample_JSON_parse true "r2" [secret; standup]) two_rooms
  = Normal [standup].
Proof.
  destruct (handleDeleteRoom_agrees_with_reload sample_JSON_parse "r2"
              [secret; standup] two_rooms) as (_ & _ & _ & Hreload).
  rewrite Hreload; [reflexivity|]. left. reflexivity.
Defined.

Lemma participant_join_witness :
  App.isAdminMode browsing = false ∧
  sample_trim "Ana" ≠ "" ∧
  JoinRoomModal_handleSubmit sample_trim secret confirmJoin
    (JoinRoomModal.mk "Ana" "abc" "") (handleJoinRoom secret browsing)
  = (JoinRoomModal.mk "Ana" "abc" "Incorrect password",
     handleJoinRoom secret browsing) ∧
  JoinRoomModal_handleSubmit sample_trim secret confirmJoin
    (JoinRoomModal.mk "Ana" "xyz" "") (handleJoinRoom secret browsing)
  = (JoinRoomModal.mk "Ana" "xyz" "",
     App.mk (Some secret) (Some ana) false None false false).
Proof.
  assert (App.isAdminMode browsing = false) as Hadmin by reflexivity.
  assert (sample_trim "Ana" ≠ "") as Hnick by (vm_compute; discriminate).
  split_and!; [exact Hadmin|exact Hnick|..].
  - destruct (participant_join sample_trim secret
                (JoinRoomModal.mk "Ana" "abc" "") browsing Hadmin)
      as (_ & _ & Hwrong & _).
    apply (Hwrong Hnick "xyz"); [reflexivity|discriminate|discriminate].
  - destruct (participant_join sample_trim secret
                (JoinRoomModal.mk "Ana" "xyz" "") browsing Hadmin)
      as (_ & _ & _ & Hright).
    apply (Hright Hnick). right. right. reflexivity.
Defined.

Lemma admin_join_skips_password_witness :
  App.currentUser
    (handleJoinRoom secret
       (AdminLoginModal_handleSubmit (AdminLoginModal.mk "331133" "") browsing).2)
  = Some (UserSession.mk "AI Bot" ADMIN).
Proof.
  destruct (admin_join_skips_password "331133" secret browsing)
    as [_ Hunlocked].
  destruct (Hunlocked eq_refl) as (_ & _ & _ & Huser & _). exact Huser.
Defined.

Lemma handleSendMessage_sends_witness :
  sample_trim (ChatInterface.inputText typing_hi) ≠ "" ∧
  ChatRoom.id standup ∈ ChatRoom.id <$> load sample_JSON_parse two_rooms ∧
  find (λ x, ChatRoom.id x = "r1")
    (load sample_JSON_parse
       (exec
          (handleSendMessage sample_JSON_parse sample_trim "0.k3x9q1zzzzzz"
             1700000005000 standup ana
             (handleRoomUpdate sample_JSON_parse (Some standup)) typing_hi)
          two_rooms))
  = Some (ChatRoom.set_messages
            [hello;
             Message.mk "k3x9q1zzz" "Ana" PARTICIPANT " hi " 1700000005000
               type_text]
            standup).
Proof.
  assert (sample_trim (ChatInterface.inputText typing_hi) ≠ "") as Hinput
    by (vm_compute; discriminate).
  assert (ChatRoom.id standup ∈
          ChatRoom.id <$> load sample_JSON_parse two_rooms) as Hin.
  { apply (bool_decide_unpack _). vm_compute. exact I. }
  split_and!; [exact Hinput|exact Hin|].
  destruct (handleSendMessage_sends sample_JSON_parse sample_trim
              "0.k3x9q1zzzzzz" 1700000005000 standup ana typing_hi two_rooms
              Hinput Hin) as (stored & current' & Hstored & Hsent & _).
  vm_compute in Hstored. injection Hstored as <-. exact Hsent.
Defined.

Lemma handleSendMessage_nothing_stored_witness :
  sample_trim (ChatInterface.inputText typing_hi) ≠ "" ∧
  (ChatRoom.id retro ∉ ChatRoom.id <$> load sample_JSON_parse two_rooms) ∧
  outcome
    (handleSendMessage sample_JSON_parse sample_trim "0.k3x9q1zzzzzz"
       1700000005000 retro ana
       (handleRoomUpdate sample_JSON_parse (Some retro)) typing_hi)
    two_rooms
  = Normal (ChatInterface.mk "" false "" "",
            Some ([secret; standup], Some retro)).
Proof.
  assert (sample_trim (ChatInterface.inputText typing_hi) ≠ "") as Hinput
    by (vm_compute; discriminate).
  assert (ChatRoom.id retro ∉
          ChatRoom.id <$> load sample_JSON_parse two_rooms) as Hgone.
  { apply (bool_decide_unpack _). vm_compute. exact I. }
  split_and!; [exact Hinput|exact Hgone|].
  destruct (handleSendMessage_nothing_stored sample_JSON_parse sample_trim
              "0.k3x9q1zzzzzz" 1700000005000 retro ana
              (handleRoomUpdate sample_JSON_parse (Some retro)) typing_hi
              two_rooms) as [_ Hlost].
  destruct (Hlost Hinput Hgone) as (Hout & _). exact Hout.
Defined.

Lemma handleAddMemo_validates_and_appends_witness :
  handleAddMemo sample_JSON_parse sample_trim "0.k3x9q1zzzzzz" 1700000005000
    standup (handleRoomUpdate sample_JSON_parse (Some standup))
    (ChatInterface.mk "" true "Plan C" "  ") two_rooms
  = (Normal (ChatInterface.mk "" true "Plan C" "  ", None), two_rooms).
Proof.
  destruct (handleAddMemo_validates_and_appends sample_JSON_parse sample_trim
              "0.k3x9q1zzzzzz" 1700000005000 standup
              (ChatInterface.mk "" true "Plan C" "  ") two_rooms)
    as [Hblank _].
  apply Hblank. right. reflexivity.
Defined.

Lemma export_follows_append_order_witness :
  [hello] ≠ [] ∧
  exportContent sample_toLocaleString (ChatRoom.set_messages [hello] standup)
  = "[1700000000000] Ana: hello" ∧
  exportContent sample_toLocaleString (ChatRoom.set_messages [hello; hi] standup)
  = "[1700000000000] Ana: hello" +:+ String "010" "" +:+
    "[1700000001000] Ana: hi".
Proof.
  assert ([hello] ≠ []) as Hsome by discriminate.
  destruct (export_follows_append_order sample_toLocaleString standup
              [hello] hi) as (_ & _ & Hsnoc).
  destruct (export_follows_append_order sample_toLocaleString standup
              [] hello) as (_ & Hone & _).
  split_and!; [exact Hsome| |].
  - rewrite Hone. vm_compute. reflexivity.
  - change [hello; hi] with ([hello] ++ [hi]).
    rewrite (Hsnoc Hsome), Hone. vm_compute. reflexivity.
Defined.

Example export_example :
  exportContent sample_toLocaleString (ChatRoom.set_messages [hello; hi] standup)
  = "[1700000000000] Ana: hello" +:+ String "010" "" +:+
    "[1700000001000] Ana: hi".
Proof. vm_compute. reflexivity. Qed.
